(** * go-whosonfirst-clone: the clone engine of [clone.go]

    A shallow embedding of [clone.go] and the proofs of its specification.

    The program mirrors a remote tree onto local storage.  One coordinating
    goroutine ([CloneMetaFile], then [ProcessRetries]) reads the manifest and
    hands units of work to a worker pool; the units and the detached writes
    started by [Process] run concurrently with it.

    - Go's [int64] counters are [Z] with the wrap-around of [atomic.AddInt64]
      written out ([wrap64]); [float64] is Rocq's primitive binary64 float.
    - Everything outside the repository that the code calls (the file system,
      the hash function, the HTTP transport, [path.Join] and [path.Dir]) is an
      oracle [Env]: the answer to a call may depend on the call's arguments
      and on the instant of the call, which is the number of calls made so far.
      Nothing ties the answers to one another, so that other processes may
      change the file system or the remote at any time.  Every call is
      recorded, with its answer, in the [trace] of the state.
    - Sequential code is written in a state monad [M] over [State]; the
      concurrency is a step function [sys_step] whose [Choice] says which
      goroutine moves next.  A script (a list of choices) is one interleaving,
      and a theorem about all scripts is a theorem about all interleavings.
    - A move is one turn of a loop of the coordinator, one whole unit of work,
      or one whole detached write.  The goroutines share the counters, which
      they only change by atomic additions, the retry pool, on which a unit
      pushes at most once, and the outside, whose answers are arbitrary; an
      interleaving of the calls of several goroutines therefore leaves the
      counters and the pool as some order of their whole moves does.
    - The retry pool of [go-whosonfirst-pool] is a stack, a list with its top
      first.  The worker pool of [tunny] is open and runs every unit of work
      that it is sent once; it only bounds how many run at a time.
    - The logger has no effect on the state and is left out. *)

From Stdlib Require Import ZArith Floats.
From stdpp Require Import base option list strings gmap.

Local Open Scope Z_scope.

(** ** Machine numbers *)

(** Two's-complement wrap-around of a 64-bit signed integer. *)
Definition wrap64 (z : Z) : Z := (z + 2 ^ 63) `mod` 2 ^ 64 - 2 ^ 63.

Definition int64_range (z : Z) : Prop := - 2 ^ 63 ≤ z < 2 ^ 63.

(** [float64(n)] for an integer [n]: the nearest binary64, ties to even. *)
Definition float64_of_int (z : Z) : float :=
  SF2Prim (binary_normalize prec emax z 0 false).

(** ** Values of the Go libraries *)

(** A non-nil [error]; only its message can be observed. *)
Definition error := string.

Definition bytes := list Byte.byte.

(** The pair [(value, err)] of a call that yields a value or an error. *)
Inductive Result (A : Type) : Type :=
| Ok (a : A)
| Fail (e : error).
Arguments Ok {A} a.
Arguments Fail {A} e.

(** What [os.Stat] tells: no error, an error for which [os.IsNotExist] holds,
    or another error. *)
Inductive StatResult :=
| StatOk
| StatNotExist
| StatOtherErr (e : error).

Definition os_IsNotExist (r : StatResult) : bool :=
  match r with StatNotExist => true | _ => false end.

(** [*http.Response], with what [ioutil.ReadAll(rsp.Body)] will yield. *)
Record Response := mkResponse {
  StatusCode : Z;
  Status : string;
  Header : gmap string string;
  Body : Result bytes
}.

(** [rsp.Header.Get(key)]: the empty string when the header is absent.  The
    map is keyed by the canonical names of the headers. *)
Definition Header_Get (h : gmap string string) (key : string) : string :=
  default EmptyString (h !! key).

Definition quote : Ascii.ascii := Ascii.ascii_of_nat 34.

(** The call of [strings.Replace] in [HasHashChanged]: every double-quote
    character of [s] is removed. *)
Fixpoint strings_Replace_quote (s : string) : string :=
  match s with
  | EmptyString => EmptyString
  | String a s' =>
      if Ascii.eqb a quote then strings_Replace_quote s'
      else String a (strings_Replace_quote s')
  end.

(** ** The clone job *)

(** The [WOFClone] struct.  [retries] is the LIFO pool, its top first.  The
    logger, the HTTP client, the worker pool, the timer and the [done] channel
    carry no state of the model; [Failed] is never used by the code. *)
Record WOFClone := mkWOFClone {
  Source : string;
  Dest : string;
  Success : Z;
  Error : Z;
  Skipped : Z;
  Scheduled : Z;
  Completed : Z;
  MaxRetries : float;
  retries : list string
}.

(** [NewWOFClone(source, dest, procs, logger)], lines 41-81.  [procs] sizes
    the worker pool and [logger] is the logger; the goroutine that prints the
    counters every second only reads them. *)
Definition NewWOFClone (source dest : string) : WOFClone :=
  {| Source := source; Dest := dest;
     Success := 0; Error := 0; Skipped := 0; Scheduled := 0; Completed := 0;
     MaxRetries := 25%float; retries := [] |}.

(** The address of one of the five counters, as in [&c.Success]. *)
Inductive Counter := c_Success | c_Error | c_Skipped | c_Scheduled | c_Completed.

Definition load (f : Counter) (c : WOFClone) : Z :=
  match f with
  | c_Success => Success c
  | c_Error => Error c
  | c_Skipped => Skipped c
  | c_Scheduled => Scheduled c
  | c_Completed => Completed c
  end.

Definition store (f : Counter) (v : Z) (c : WOFClone) : WOFClone :=
  match f with
  | c_Success => mkWOFClone (Source c) (Dest c) v (Error c) (Skipped c) (Scheduled c) (Completed c) (MaxRetries c) (retries c)
  | c_Error => mkWOFClone (Source c) (Dest c) (Success c) v (Skipped c) (Scheduled c) (Completed c) (MaxRetries c) (retries c)
  | c_Skipped => mkWOFClone (Source c) (Dest c) (Success c) (Error c) v (Scheduled c) (Completed c) (MaxRetries c) (retries c)
  | c_Scheduled => mkWOFClone (Source c) (Dest c) (Success c) (Error c) (Skipped c) v (Completed c) (MaxRetries c) (retries c)
  | c_Completed => mkWOFClone (Source c) (Dest c) (Success c) (Error c) (Skipped c) (Scheduled c) v (MaxRetries c) (retries c)
  end.

(** The effect of [atomic.AddInt64(&c.f, delta)] on the struct. *)
Definition add_counter (f : Counter) (delta : Z) (c : WOFClone) : WOFClone :=
  store f (wrap64 (load f c + delta)) c.

Definition set_retries (l : list string) (c : WOFClone) : WOFClone :=
  mkWOFClone (Source c) (Dest c) (Success c) (Error c) (Skipped c) (Scheduled c) (Completed c) (MaxRetries c) l.

(** ** The environment *)

(** One call to the outside, with the answer it got. *)
Inductive Event :=
| EvStat (name : string) (r : StatResult)
| EvMkdirAll (name : string)
| EvHashFile (name : string) (r : Result string)
| EvDo (method url : string) (r : Result Response)
| EvWriteFile (name : string) (data : bytes) (r : option error).

(** The outside world.  The first argument of an oracle is the instant of the
    call.  [path_Join] and [path_Dir] are Go's pure [path.Join] and
    [path.Dir]. *)
Record Env := mkEnv {
  env_Stat : nat → string → StatResult;
  env_HashFile : nat → string → Result string;
  env_Do : nat → string → string → Result Response;
  env_WriteFile : nat → string → bytes → option error;
  path_Join : string → string → string;
  path_Dir : string → string
}.

(** The state the goroutines share: the job, the calls made so far (latest
    first) and the write goroutines that [Process] started and that have not
    run yet. *)
Record State := mkState {
  job : WOFClone;
  trace : list Event;
  detached : list (string * bytes)
}.

(** The instant of the next call to the outside. *)
Definition now (s : State) : nat := length (trace s).

(** ** The state monad of the sequential code *)

Definition M (A : Type) : Type := State → A * State.

#[global] Instance M_ret : MRet M := λ A a s, (a, s).

#[global] Instance M_bind : MBind M :=
  λ A B k m s, let '(a, s') := m s in k a s'.

Definition get_job : M WOFClone := λ s, (job s, s).

Definition modify_job (f : WOFClone → WOFClone) : M unit :=
  λ s, (tt, mkState (f (job s)) (trace s) (detached s)).

Definition record (ev : Event) : M unit :=
  λ s, (tt, mkState (job s) (ev :: trace s) (detached s)).

Definition get_now : M nat := λ s, (now s, s).

Definition atomic_AddInt64 (f : Counter) (delta : Z) : M unit :=
  modify_job (add_counter f delta).

(** [c.retries.Push(&pool.PoolString{String: rel_path})]. *)
Definition retries_Push (rel_path : string) : M unit :=
  modify_job (λ c, set_retries (rel_path :: retries c) c).

(** [c.retries.Length()]. *)
Definition retries_Length (c : WOFClone) : Z := Z.of_nat (length (retries c)).

(** [c.retries.Pop()]: the top of the pool, or nothing when it is empty. *)
Definition retries_Pop : M (option string) :=
  λ s, match retries (job s) with
       | [] => (None, s)
       | r :: l => (Some r, mkState (set_retries l (job s)) (trace s) (detached s))
       end.

(** [go func(local, contents) {...}(local, contents)]: the goroutine is
    started; it runs when the scheduler picks it. *)
Definition go_write (local : string) (contents : bytes) : M unit :=
  λ s, (tt, mkState (job s) (trace s) (detached s ++ [(local, contents)])).

Section Code.

Context (env : Env).

Definition os_Stat (name : string) : M StatResult :=
  t ← get_now;
  let r := env_Stat env t name in
  record (EvStat name r);;
  mret r.

Definition os_MkdirAll (name : string) : M unit :=
  record (EvMkdirAll name).

Definition utils_HashFile (name : string) : M (Result string) :=
  t ← get_now;
  let r := env_HashFile env t name in
  record (EvHashFile name r);;
  mret r.

Definition client_Do (method url : string) : M (Result Response) :=
  t ← get_now;
  let r := env_Do env t method url in
  record (EvDo method url r);;
  mret r.

Definition ioutil_WriteFile (name : string) (data : bytes) : M (option error) :=
  t ← get_now;
  let r := env_WriteFile env t name data in
  record (EvWriteFile name data r);;
  mret r.

(** *** [Fetch], lines 402-429 *)
Definition Fetch (method url : string) : M (Result Response) :=
  r ← client_Do method url;
  match r with
  | Fail err => mret (Fail err)
  | Ok rsp =>
      let expected := 200 in
      if negb (StatusCode rsp =? expected) then mret (Fail (Status rsp))
      else mret (Ok rsp)
  end.

(** *** [HasHashChanged], lines 323-344 *)
Definition HasHashChanged (local_hash remote : string) : M (bool * option error) :=
  let change := true in
  r ← Fetch "HEAD" remote;
  match r with
  | Fail err => mret (change, Some err)
  | Ok rsp =>
      let etag := Header_Get (Header rsp) "Etag" in
      let remote_hash := strings_Replace_quote etag in
      let change := if String.eqb local_hash remote_hash then false else change in
      mret (change, None)
  end.

(** *** [HasChanged], lines 309-321 *)
Definition HasChanged (local remote : string) : M (bool * option error) :=
  let change := true in
  h ← utils_HashFile local;
  match h with
  | Fail err => mret (change, Some err)
  | Ok local_hash => HasHashChanged local_hash remote
  end.

(** The body of the goroutine that [Process] starts, lines 382-397.  Its
    return value goes nowhere: a [go] statement discards it. *)
Definition write_goroutine (local : string) (contents : bytes) : M (option error) :=
  write_err ← ioutil_WriteFile local contents;
  match write_err with
  | Some e =>
      atomic_AddInt64 c_Success (-1);;
      atomic_AddInt64 c_Error 1;;
      mret (Some e)
  | None => mret None
  end.

(** *** [Process], lines 346-400 *)
Definition Process (remote local : string) : M (option error) :=
  let local_root := path_Dir env local in
  err ← os_Stat local_root;
  (if os_IsNotExist err then os_MkdirAll local_root else mret tt);;
  r ← Fetch "GET" remote;
  match r with
  | Fail fetch_err => mret (Some fetch_err)
  | Ok rsp =>
      match Body rsp with
      | Fail read_err => mret (Some read_err)
      | Ok contents =>
          go_write local contents;;
          mret None
      end
  end.

(** *** [ClonePath], lines 278-305 *)
Definition ClonePath (rel_path : string) (ensure_changes : bool) : M (option error) :=
  c ← get_job;
  let remote := Source c +:+ rel_path in
  let local := path_Join env (Dest c) rel_path in
  let process : M (option error) :=
    process_err ← Process remote local;
    match process_err with
    | Some e => mret (Some e)
    | None => mret None
    end in
  err ← os_Stat local;
  if negb (os_IsNotExist err) && ensure_changes then
    '(change, _) ← HasChanged local remote;
    if negb change then
      atomic_AddInt64 c_Skipped 1;;
      mret None
    else process
  else process.

(** ** The units of work and the coordinator's loops *)

(** A unit of work handed to the pool: the closure of lines 176-193, or the
    one of lines 248-267. *)
Inductive Task :=
| InitialUnit (rel_path : string) (ensure_changes : bool)
| RetryUnit (rel_path : string).

(** What [reader.Read()] yields before [io.EOF]: a row or an error. *)
Inductive ReadItem :=
| Row (row : gmap string string)
| ReadErr (e : error).

(** The change detector's answer for one entry: [carry_on] is [D_Skip],
    and [D_Fetch] carries the value [ensure_changes] has at line 172. *)
Inductive Decision :=
| D_Skip
| D_Fetch (ensure_changes : bool).

(** Lines 116-167 of [CloneMetaFile]: the decision for a row with a path. *)
Definition decide_entry (skip_existing force_updates : bool)
    (row : gmap string string) (rel_path : string) : M Decision :=
  c ← get_job;
  let remote := Source c +:+ rel_path in
  let local := path_Join env (Dest c) rel_path in
  err ← os_Stat local;
  if negb (os_IsNotExist err) then
    carry_on ←
      (if force_updates then mret false
       else if skip_existing then mret true
       else
         '(has_changes, _) ←
           match row !! "file_hash" with
           | Some file_hash => HasHashChanged file_hash remote
           | None => HasChanged local remote
           end;
         mret (negb has_changes));
    if (carry_on : bool) then mret D_Skip else mret (D_Fetch false)
  else mret (D_Fetch true).

(** Lines 110-195: one turn of the manifest loop on a row that was read.
    The result is the unit of work that the turn submits, if any. *)
Definition loop_body (skip_existing force_updates : bool)
    (row : gmap string string) : M (option Task) :=
  match row !! "path" with
  | None => mret None
  | Some rel_path =>
      d ← decide_entry skip_existing force_updates row rel_path;
      match d with
      | D_Skip =>
          atomic_AddInt64 c_Scheduled 1;;
          atomic_AddInt64 c_Completed 1;;
          atomic_AddInt64 c_Skipped 1;;
          mret None
      | D_Fetch ensure_changes =>
          atomic_AddInt64 c_Scheduled 1;;
          mret (Some (InitialUnit rel_path ensure_changes))
      end
  end.

(** Lines 176-193, the unit of the initial pass.  The closure returns
    nothing; the model hands back [cl_err] so that a run can be told. *)
Definition initial_unit (rel_path : string) (ensure_changes : bool) : M (option error) :=
  cl_err ← ClonePath rel_path ensure_changes;
  match cl_err with
  | Some _ =>
      atomic_AddInt64 c_Error 1;;
      retries_Push rel_path
  | None => atomic_AddInt64 c_Success 1
  end;;
  atomic_AddInt64 c_Completed 1;;
  mret cl_err.

(** Lines 248-267, the unit of the retry pass. *)
Definition retry_unit (rel_path : string) : M (option error) :=
  let ensure_changes := true in
  cl_err ← ClonePath rel_path ensure_changes;
  match cl_err with
  | Some _ => atomic_AddInt64 c_Error 1
  | None => atomic_AddInt64 c_Error (-1)
  end;;
  atomic_AddInt64 c_Completed 1;;
  mret cl_err.

Definition run_task (t : Task) : M (option error) :=
  match t with
  | InitialUnit rel_path ensure_changes => initial_unit rel_path ensure_changes
  | RetryUnit rel_path => retry_unit rel_path
  end.

(** Lines 232-242: one turn of the retry loop, entered with a non-empty
    pool. *)
Definition retry_loop_body : M (option Task) :=
  r ← retries_Pop;
  match r with
  | None => mret None
  | Some rel_path =>
      atomic_AddInt64 c_Scheduled 1;;
      mret (Some (RetryUnit rel_path))
  end.

End Code.

(** ** The budget gate, lines 212-224 of [ProcessRetries] *)

(** What the head of [ProcessRetries] finds: nothing to retry (the ratio is
    not computed), too many failures, or a ratio within the budget. *)
Inductive Gate :=
| NoRetries
| Excessive (pct : float)
| Proceed (pct : float).

(** Lines 216-219: the percentage of the scheduled units that failed. *)
Definition pct_failed (to_retry scheduled : Z) : float :=
  let scheduled_f := float64_of_int scheduled in
  let retry_f := float64_of_int to_retry in
  (retry_f / scheduled_f * 100)%float.

Definition budget_gate (c : WOFClone) : Gate :=
  let to_retry := retries_Length c in
  if 0 <? to_retry then
    let pct := pct_failed to_retry (Scheduled c) in
    if PrimFloat.ltb (MaxRetries c) pct then Excessive pct else Proceed pct
  else NoRetries.

(** ** The concurrent system *)

(** Where the coordinating goroutine stands. *)
Inductive Pc :=
| InLoop                         (* in the manifest loop, lines 98-196 *)
| InitialWait                    (* at [wg.Wait()], line 198 *)
| InRetries                      (* in the retry loop, lines 230-270 *)
| RetryWait                      (* at [wg.Wait()], line 272 *)
| Returned (err : option error). (* [CloneMetaFile] has returned *)

(** The job in flight: the shared state, the rows still to read, the units
    submitted and not yet run, the units that ran (latest first, each with
    the error [ClonePath] gave it), and the coordinator's position. *)
Record Sys := mkSys {
  st : State;
  reader : list ReadItem;
  pending : list Task;
  finished : list (Task * option error);
  pc : Pc
}.

(** Which goroutine moves: the coordinator, the [i]-th pending unit of work,
    or the [i]-th detached write. *)
Inductive Choice :=
| Coord
| Run (i : nat)
| Write (i : nat).

(** The error of line 204. *)
Definition E_RETRIES : error := "One of file failed to be cloned".

Section Run.

Context (env : Env) (skip_existing force_updates : bool).

(** The next move of the coordinator; [None] when it is blocked in
    [wg.Wait()] or has returned.
    - [InLoop]: [reader.Read()] gives [io.EOF] (line 102, on to the barrier),
      an error (line 106, [CloneMetaFile] returns it at once, without waiting
      for the units in flight), or a row (lines 110-195).
    - [InitialWait]: [wg.Wait()] returns when no unit is in flight; then
      [ProcessRetries] runs its gate (lines 212-224): with nothing to retry it
      returns true and [CloneMetaFile] returns nil; with too many failures it
      returns false and [CloneMetaFile] returns its error (lines 202-205);
      otherwise it enters its loop.
    - [InRetries]: the test of the loop (line 230) and, when the pool is not
      empty, one turn (lines 232-270); a pop that fails breaks out of the
      loop.
    - [RetryWait]: [wg.Wait()] of line 272, then [return true], and
      [CloneMetaFile] returns nil. *)
Definition coord_step (s : Sys) : option Sys :=
  match pc s with
  | InLoop =>
      match reader s with
      | [] => Some (mkSys (st s) [] (pending s) (finished s) InitialWait)
      | ReadErr e :: rest =>
          Some (mkSys (st s) rest (pending s) (finished s) (Returned (Some e)))
      | Row row :: rest =>
          let '(t, st') := loop_body env skip_existing force_updates row (st s) in
          Some (mkSys st' rest (pending s ++ option_list t) (finished s) InLoop)
      end
  | InitialWait =>
      match pending s with
      | [] =>
          match budget_gate (job (st s)) with
          | NoRetries =>
              Some (mkSys (st s) (reader s) [] (finished s) (Returned None))
          | Excessive _ =>
              Some (mkSys (st s) (reader s) [] (finished s) (Returned (Some E_RETRIES)))
          | Proceed _ =>
              Some (mkSys (st s) (reader s) [] (finished s) InRetries)
          end
      | _ :: _ => None
      end
  | InRetries =>
      if 0 <? retries_Length (job (st s)) then
        let '(t, st') := retry_loop_body (st s) in
        match t with
        | Some task =>
            Some (mkSys st' (reader s) (pending s ++ [task]) (finished s) InRetries)
        | None =>
            Some (mkSys st' (reader s) (pending s) (finished s) RetryWait)
        end
      else Some (mkSys (st s) (reader s) (pending s) (finished s) RetryWait)
  | RetryWait =>
      match pending s with
      | [] => Some (mkSys (st s) (reader s) [] (finished s) (Returned None))
      | _ :: _ => None
      end
  | Returned _ => None
  end.

(** One move of the system.  A unit of work or a detached write can run
    whenever it exists, whatever the coordinator is doing. *)
Definition sys_step (ch : Choice) (s : Sys) : option Sys :=
  match ch with
  | Coord => coord_step s
  | Run i =>
      match pending s !! i with
      | Some t =>
          let '(r, st') := run_task env t (st s) in
          Some (mkSys st' (reader s) (delete i (pending s)) ((t, r) :: finished s) (pc s))
      | None => None
      end
  | Write i =>
      match detached (st s) !! i with
      | Some (local, contents) =>
          let st1 := mkState (job (st s)) (trace (st s)) (delete i (detached (st s))) in
          let '(_, st') := write_goroutine env local contents st1 in
          Some (mkSys st' (reader s) (pending s) (finished s) (pc s))
      | None => None
      end
  end.

(** One interleaving: the moves of [script], in order. *)
Fixpoint exec (script : list Choice) (s : Sys) : option Sys :=
  match script with
  | [] => Some s
  | ch :: rest =>
      match sys_step ch s with
      | Some s' => exec rest s'
      | None => None
      end
  end.

End Run.

(** [CloneMetaFile(file, ...)] on the job of [s0]: lines 85-96.  [manifest]
    is what [csv.NewDictReader] gives for the file: an error, or the items
    that the reader will yield. *)
Definition CloneMetaFile (s0 : State) (manifest : Result (list ReadItem)) : Sys :=
  match manifest with
  | Fail read_err => mkSys s0 [] [] [] (Returned (Some read_err))
  | Ok items => mkSys s0 items [] [] InLoop
  end.

(** The state of a process that has just called [NewWOFClone]. *)
Definition fresh (source dest : string) : State :=
  mkState (NewWOFClone source dest) [] [].

(** ** Reading the environment's answers *)

(** The error [Fetch] returns for an answer of the transport: the
    transport's own error, or the status text when the status is not 200. *)
Definition fetch_error (r : Result Response) : option error :=
  match r with
  | Fail e => Some e
  | Ok rsp => if StatusCode rsp =? 200 then None else Some (Status rsp)
  end.

(** The URLs of the full-content (GET) requests of a trace. *)
Fixpoint get_requests (tr : list Event) : list string :=
  match tr with
  | [] => []
  | EvDo method url _ :: tr' =>
      if String.eqb method "GET" then url :: get_requests tr' else get_requests tr'
  | _ :: tr' => get_requests tr'
  end.

(** The validator a successful probe carries: the [Etag] header without its
    double quotes. *)
Definition remote_fingerprint (rsp : Response) : string :=
  strings_Replace_quote (Header_Get (Header rsp) "Etag").

(** The fingerprints that the manifest loop compares for [row], from the
    instant [t] on, are both obtained and are equal: the local one is the
    manifest's [file_hash] when the row has one and the hash of the local
    file otherwise; the remote one comes from a probe answered with 200. *)
Definition fingerprints_equal (env : Env) (row : gmap string string)
    (local remote : string) (t : nat) : Prop :=
  match row !! "file_hash" with
  | Some file_hash =>
      ∃ rsp, env_Do env t "HEAD" remote = Ok rsp ∧ StatusCode rsp = 200 ∧
             file_hash = remote_fingerprint rsp
  | None =>
      ∃ local_hash rsp,
        env_HashFile env t local = Ok local_hash ∧
        env_Do env (S t) "HEAD" remote = Ok rsp ∧ StatusCode rsp = 200 ∧
        local_hash = remote_fingerprint rsp
  end.

(** ** Reading a trace *)

(** The paths of the rows of a manifest, in order; a row without a path has
    none. *)
Definition manifest_paths (rows : list (gmap string string)) : list string :=
  omap (λ row, row !! "path") rows.

(** A full-content request has failed when the transport returned an error,
    the status is not 200, or the body could not be read. *)
Definition fetch_failed (r : Result Response) : bool :=
  match r with
  | Fail _ => true
  | Ok rsp =>
      negb (StatusCode rsp =? 200)
      || match Body rsp with Fail _ => true | Ok _ => false end
  end.

(** The number of failed fetches in a trace. *)
Fixpoint failed_fetches (tr : list Event) : nat :=
  match tr with
  | [] => 0
  | EvDo method _ r :: tr' =>
      if String.eqb method "GET" && fetch_failed r
      then S (failed_fetches tr') else failed_fetches tr'
  | _ :: tr' => failed_fetches tr'
  end.

(** Every [os.Stat] of a file of [locals] answered that it does not exist. *)
Definition absent_in (locals : list string) (tr : list Event) : bool :=
  forallb (λ ev, match ev with
                 | EvStat name r =>
                     if bool_decide (name ∈ locals) then os_IsNotExist r else true
                 | _ => true
                 end) tr.

(** Every write of the trace succeeded. *)
Definition stores_ok (tr : list Event) : bool :=
  forallb (λ ev, match ev with
                 | EvWriteFile _ _ (Some _) => false
                 | _ => true
                 end) tr.

(** ** Concrete worlds *)

Definition ex_join (dir name : string) : string := dir +:+ "/" +:+ name.

(** An entity tag as servers send it: the hash between double quotes. *)
Definition ex_etag (h : string) : string :=
  String quote (h +:+ String quote EmptyString).

Definition ex_rsp (h : string) : Response :=
  mkResponse 200 "200 OK" {[ "Etag" := ex_etag h ]} (Ok []).

Definition ex_row (rel_path : string) : ReadItem := Row {[ "path" := rel_path ]}.

(** Every file is there and the remote has the same content. *)
Definition env_same : Env :=
  mkEnv (λ _ _, StatOk) (λ _ _, Ok "h") (λ _ _ _, Ok (ex_rsp "h"))
        (λ _ _ _, None) ex_join (λ _, "dest").

(** Every file is there and the remote cannot be reached. *)
Definition env_down : Env :=
  mkEnv (λ _ _, StatOk) (λ _ _, Ok "h") (λ _ _ _, Fail "connection refused")
        (λ _ _ _, None) ex_join (λ _, "dest").

(** An empty destination on a full disk: every fetch works, no write does. *)
Definition env_disk_full : Env :=
  mkEnv (λ _ _, StatNotExist) (λ _ _, Fail "no such file")
        (λ _ _ _, Ok (ex_rsp "h")) (λ _ _ _, Some "no space left on device")
        ex_join (λ _, "dest").

(** A destination that is empty until the write of instant 6 lands. *)
Definition env_dup : Env :=
  mkEnv (λ t _, if (t <? 7)%nat then StatNotExist else StatOk)
        (λ _ _, Ok "h") (λ _ _ _, Ok (ex_rsp "h")) (λ _ _ _, None)
        ex_join (λ _, "dest").

(** Ten entries. *)
Definition ex_paths : list string :=
  ["p0"; "p1"; "p2"; "p3"; "p4"; "p5"; "p6"; "p7"; "p8"; "p9"].

Definition ex_rows : list (gmap string string) :=
  (λ p, {[ "path" := p ]}) <$> ex_paths.

Definition ex_start : Sys :=
  CloneMetaFile (fresh "http://src/" "dest") (Ok (Row <$> ex_rows)).

(** An empty destination whose directory appears with the first
    [os.MkdirAll] (instant 12), and a remote that cannot serve [p3] and [p7]
    before instant 45. *)
Definition env_flaky : Env :=
  mkEnv (λ t name, if String.eqb name "dest" && (12 <? t)%nat
                   then StatOk else StatNotExist)
        (λ _ _, Fail "no such file")
        (λ t _ url,
           if (String.eqb url "http://src/p3" || String.eqb url "http://src/p7")
              && (t <? 45)%nat
           then Fail "timeout" else Ok (ex_rsp "h"))
        (λ _ _ _, None) ex_join (λ _, "dest").

(** The initial pass: the ten rows and the end of the manifest, the ten
    units, the eight writes. *)
Definition ex_initial_script : list Choice :=
  replicate 11 Coord ++ replicate 10 (Run 0) ++ replicate 8 (Write 0).

Definition ex_flaky_barrier : Sys :=
  default ex_start (exec env_flaky false false ex_initial_script ex_start).

(** The retry pass: the gate, two pops, the end of the loop, the two units,
    their writes, and the return. *)
Definition ex_flaky_retry_script : list Choice :=
  [Coord; Coord; Coord; Coord; Run 1; Run 0; Write 0; Write 0; Coord]%nat.

Definition ex_flaky_final : Sys :=
  default ex_start
    (exec env_flaky false false ex_flaky_retry_script ex_flaky_barrier).

(** The same destination, and a remote that never serves [p1], [p3], [p5]
    and [p7]. *)
Definition env_failing : Env :=
  mkEnv (λ t name, if String.eqb name "dest" && (12 <? t)%nat
                   then StatOk else StatNotExist)
        (λ _ _, Fail "no such file")
        (λ _ _ url,
           if String.eqb url "http://src/p1" || String.eqb url "http://src/p3"
              || String.eqb url "http://src/p5" || String.eqb url "http://src/p7"
           then Fail "timeout" else Ok (ex_rsp "h"))
        (λ _ _ _, None) ex_join (λ _, "dest").

(** The barrier of its initial pass: six successes, four failures. *)
Definition ex_aborting : Sys :=
  default ex_start
    (exec env_failing false false
       (replicate 11 Coord ++ replicate 10 (Run 0) ++ replicate 6 (Write 0))
       ex_start).

(** ** Invariants of the runs *)

(** While the coordinator is in the manifest loop or at its barrier,
    [Scheduled] has grown by some [k] that is at most the number of rows
    read, the units submitted are at most [k], and the pool has grown by at
    most the number of units that ran. *)
Definition scheduled_inv (s0 : State) (items : list ReadItem) (s : Sys) : Prop :=
  pc s = InLoop ∨ pc s = InitialWait →
  ∃ k : nat,
    Scheduled (job (st s)) = wrap64 (Scheduled (job s0) + Z.of_nat k) ∧
    (k + length (reader s) ≤ length items)%nat ∧
    (length (pending s) + length (finished s) ≤ k)%nat ∧
    (length (retries (job (st s))) ≤ length (retries (job s0)) + length (finished s))%nat.

(** The paths of the units of the initial pass whose [ClonePath] returned an
    error, the latest first. *)
Definition failed_paths (fin : list (Task * option error)) : list string :=
  omap (λ tr, match tr with
              | (InitialUnit rel_path _, Some _) => Some rel_path
              | _ => None
              end) fin.

Definition is_initial (t : Task) : Prop :=
  match t with InitialUnit _ _ => True | RetryUnit _ => False end.

(** While the coordinator is in the manifest loop or at its barrier, the
    units in flight are units of the initial pass, and the pool holds, above
    what it held when the job started, the paths of the units that failed. *)
Definition pool_inv (s0 : State) (s : Sys) : Prop :=
  pc s = InLoop ∨ pc s = InitialWait →
  Forall is_initial (pending s) ∧
  retries (job (st s)) = failed_paths (finished s) ++ retries (job s0).

Definition is_retry (t : Task) : Prop :=
  match t with RetryUnit _ => True | InitialUnit _ _ => False end.

(** From the barrier of the initial pass on, relative to the pool [Q], the
    finished units [F1] and the counters [S1] and [C1] found there: every
    path of [Q] is in the pool, pending as a retry unit, or finished; and
    [Scheduled] and [Completed] have grown by the number of paths popped and
    of retry units run. *)
Definition retry_inv (Q : list string) (F1 : list Task) (S1 C1 : Z)
    (gate : Gate) (s : Sys) : Prop :=
  Forall is_retry (pending s) ∧
  (finished s).*1 ++ pending s ++ (RetryUnit <$> retries (job (st s)))
    ≡ₚ (RetryUnit <$> Q) ++ F1 ∧
  Scheduled (job (st s))
  = wrap64 (S1 + (Z.of_nat (length Q) - Z.of_nat (length (retries (job (st s)))))) ∧
  Completed (job (st s))
  = wrap64 (C1 + (Z.of_nat (length Q) - Z.of_nat (length (retries (job (st s))))
                  - Z.of_nat (length (pending s)))) ∧
  match pc s with
  | InLoop => False
  | InitialWait =>
      pending s = [] ∧ retries (job (st s)) = Q ∧
      budget_gate (job (st s)) = gate
  | InRetries => True
  | RetryWait => retries (job (st s)) = []
  | Returned r => r = None ∧ retries (job (st s)) = [] ∧ pending s = []
  end.

(** The accounts of the initial pass of a manifest of ten rows, as long as
    every local file is reported absent and every write succeeds: all ten
    entries are handed to the pool, and the units that ran are split by the
    number of failed fetches. *)
Definition initial_inv (c0 : WOFClone) (paths : list string) (s : Sys) : Prop :=
  let c := job (st s) in
  let nf := Z.of_nat (failed_fetches (trace (st s))) in
  Source c = Source c0 ∧ Dest c = Dest c0 ∧ MaxRetries c = 25%float ∧
  Forall (λ it, ∃ row p, it = Row row ∧ row !! "path" = Some p ∧ p ∈ paths)
    (reader s) ∧
  Forall (λ t, ∃ p, t = InitialUnit p true ∧ p ∈ paths) (pending s) ∧
  Forall (.∈ paths) (retries c) ∧
  Z.of_nat (length (reader s)) ≤ 10 ∧
  Scheduled c = 10 - Z.of_nat (length (reader s)) ∧
  Completed c = Scheduled c - Z.of_nat (length (pending s)) ∧
  Error c = nf ∧ Z.of_nat (length (retries c)) = nf ∧
  Success c = Completed c - nf ∧ 0 ≤ Success c ∧ Skipped c = 0 ∧
  (pc s = InitialWait → reader s = []).

(** The accounts of the retry pass that follows an initial pass of ten
    entries with two failures, as long as every local file is reported
    absent, every write succeeds and no further fetch fails: [Success]
    stays at 8 and every retry unit that ran took one from [Error]. *)
Definition retry_account_inv (c0 : WOFClone) (paths : list string)
    (s : Sys) : Prop :=
  let c := job (st s) in
  let nr := Z.of_nat (length (retries c)) in
  let np := Z.of_nat (length (pending s)) in
  Source c = Source c0 ∧ Dest c = Dest c0 ∧ MaxRetries c = 25%float ∧
  Success c = 8 ∧ Skipped c = 0 ∧
  Forall (.∈ paths) (retries c) ∧
  Forall (λ t, ∃ p, t = RetryUnit p ∧ p ∈ paths) (pending s) ∧
  nr ≤ 2 ∧
  match pc s with
  | InLoop => False
  | InitialWait =>
      pending s = [] ∧ nr = 2 ∧ Scheduled c = 10 ∧ Completed c = 10 ∧ Error c = 2
  | InRetries =>
      Scheduled c = 12 - nr ∧ Completed c = Scheduled c - np ∧
      10 ≤ Completed c ∧ Error c = 12 - Completed c
  | RetryWait =>
      retries c = [] ∧ Scheduled c = 12 ∧ Completed c = 12 - np ∧
      10 ≤ Completed c ∧ Error c = 12 - Completed c
  | Returned r =>
      r = None ∧ retries c = [] ∧ pending s = [] ∧
      Scheduled c = 12 ∧ Completed c = 12 ∧ Error c = 0
  end.

(** ** Tactics *)

(** Unfold the monad and compute; [wrap64] stays folded. *)
Ltac run_M :=
  repeat (cbn -[wrap64] in *;
          unfold mbind, M_bind, mret, M_ret, get_job, get_now, record,
            modify_job, atomic_AddInt64, retries_Push, retries_Pop, go_write,
            now in * ).

Ltac unfold_code :=
  unfold run_task, retry_loop_body, initial_unit, retry_unit, loop_body,
    decide_entry, ClonePath, Process, HasChanged, HasHashChanged, Fetch,
    write_goroutine, os_Stat, os_MkdirAll, utils_HashFile, client_Do,
    ioutil_WriteFile in *.

(** A trace that has grown by a few calls has the old trace as a suffix. *)
Ltac solve_suffix :=
  solve [ by apply suffix_cons_r, suffix_cons_r, suffix_cons_r, suffix_cons_r,
               suffix_cons_r, suffix_cons_r, suffix_cons_r
        | by apply suffix_cons_r, suffix_cons_r, suffix_cons_r, suffix_cons_r,
               suffix_cons_r, suffix_cons_r
        | by apply suffix_cons_r, suffix_cons_r, suffix_cons_r, suffix_cons_r,
               suffix_cons_r
        | by apply suffix_cons_r, suffix_cons_r, suffix_cons_r, suffix_cons_r
        | by apply suffix_cons_r, suffix_cons_r, suffix_cons_r
        | by apply suffix_cons_r, suffix_cons_r
        | by apply suffix_cons_r
        | done ].

(** The second operand of a conjunction that holds. *)
Ltac ensured :=
  match goal with
  | H : _ && ?e = true |- ?e = true => by apply andb_true_iff in H as [_ ?]
  end.

(** ** More readings of a trace and of a manifest *)

(** The URLs of the metadata (HEAD) requests of a trace. *)
Fixpoint probe_requests (tr : list Event) : list string :=
  match tr with
  | [] => []
  | EvDo method url _ :: tr' =>
      if String.eqb method "HEAD" then url :: probe_requests tr'
      else probe_requests tr'
  | _ :: tr' => probe_requests tr'
  end.

(** The directories that [os.MkdirAll] was asked to create. *)
Fixpoint mkdirs (tr : list Event) : list string :=
  match tr with
  | [] => []
  | EvMkdirAll name :: tr' => name :: mkdirs tr'
  | _ :: tr' => mkdirs tr'
  end.

(** The number of writes of a trace that failed. *)
Fixpoint failed_stores (tr : list Event) : nat :=
  match tr with
  | [] => 0
  | EvWriteFile _ _ (Some _) :: tr' => S (failed_stores tr')
  | _ :: tr' => failed_stores tr'
  end.

(** Whether a string holds a double quote. *)
Fixpoint contains_quote (s : string) : bool :=
  match s with
  | EmptyString => false
  | String a s' => Ascii.eqb a quote || contains_quote s'
  end.

(** The number of rows of a manifest that have a path. *)
Fixpoint rows_with_path (items : list ReadItem) : nat :=
  match items with
  | [] => 0
  | Row row :: items' =>
      match row !! "path" with
      | Some _ => S (rows_with_path items')
      | None => rows_with_path items'
      end
  | ReadErr _ :: items' => rows_with_path items'
  end.



(** A row is settled for a job [c0] when, at every instant, its local copy
    is there and either the job skips what exists or the fingerprints that
    the manifest loop compares are equal. *)
Definition settled (env : Env) (skip_existing : bool) (c0 : WOFClone)
    (row : gmap string string) : Prop :=
  ∀ rel_path, row !! "path" = Some rel_path →
    ∀ t, os_IsNotExist (env_Stat env t (path_Join env (Dest c0) rel_path)) = false ∧
         (skip_existing = true ∨
          fingerprints_equal env row (path_Join env (Dest c0) rel_path)
            (Source c0 +:+ rel_path) (S t)).

(** Every file is there and the remote answers without an entity tag. *)
Definition env_no_etag : Env :=
  mkEnv (λ _ _, StatOk) (λ _ _, Ok "h")
        (λ _ _ _, Ok (mkResponse 200 "200 OK" ∅ (Ok [])))
        (λ _ _ _, None) ex_join (λ _, "dest").

(** A manifest that breaks after its first row, once that row has been
    read: the remote is down, the unit of the row is in flight. *)
Definition ex_torn : Sys :=
  default ex_start
    (exec env_down false false [Coord]
       (CloneMetaFile (fresh "http://src/" "dest")
          (Ok [ex_row "a"; ReadErr "unexpected EOF"; ex_row "b"]))).

(** While the coordinator is in the manifest loop or at its barrier,
    [Scheduled] has grown by the number [k] of rows with a path that were
    read, and [Completed] by [k] less the units still in flight. *)
Definition completed_inv (s0 : State) (items : list ReadItem) (s : Sys) : Prop :=
  pc s = InLoop ∨ pc s = InitialWait →
  ∃ k : nat,
    Scheduled (job (st s)) = wrap64 (Scheduled (job s0) + Z.of_nat k) ∧
    Completed (job (st s))
    = wrap64 (Completed (job s0) + Z.of_nat k - Z.of_nat (length (pending s))) ∧
    (k + rows_with_path (reader s) = rows_with_path items)%nat ∧
    (pc s = InitialWait → reader s = []).



(** The barrier of a manifest of one row on a full disk, once the unit has
    run and its write has failed. *)
Definition ex_full_barrier : Sys :=
  default ex_start
    (exec env_disk_full false false [Coord; Coord; Run 0; Write 0]%nat
       (CloneMetaFile (fresh "http://src/" "dest") (Ok [ex_row "a"]))).


(** A run over rows that are all settled, [n] of them with a path: nothing
    is ever handed to the pool or fetched, and the entries read so far are
    counted as scheduled, completed and skipped, and as nothing else. *)
Definition settled_inv (env : Env) (skip_existing : bool) (c0 : WOFClone)
    (n : nat) (s : Sys) : Prop :=
  let c := job (st s) in
  pending s = [] ∧ finished s = [] ∧ detached (st s) = [] ∧
  get_requests (trace (st s)) = [] ∧
  Source c = Source c0 ∧ Dest c = Dest c0 ∧ retries c = [] ∧
  Success c = 0 ∧ Error c = 0 ∧
  ∃ (k : nat) (rows : list (gmap string string)),
    reader s = Row <$> rows ∧ Forall (settled env skip_existing c0) rows ∧
    (k + length (manifest_paths rows) = n)%nat ∧
    Scheduled c = wrap64 (Z.of_nat k) ∧ Completed c = wrap64 (Z.of_nat k) ∧
    Skipped c = wrap64 (Z.of_nat k) ∧
    match pc s with
    | InLoop => True
    | InitialWait => rows = []
    | Returned r => r = None ∧ rows = []
    | _ => False
    end.

(** The end of a run over one row whose local copy equals the remote
    one. *)
Definition ex_same_final : Sys :=
  default ex_start
    (exec env_same false false [Coord; Coord; Coord]
       (CloneMetaFile (fresh "http://src/" "dest") (Ok [ex_row "a"]))).

(** A move that is not the run of a detached write. *)
Definition no_write (ch : Choice) : Prop :=
  match ch with Write _ => False | _ => True end.

(** Some interleaving without a write takes [s] to the return of
    [CloneMetaFile]; the writes in flight in [s] are then still in flight. *)
Definition can_return (env : Env) (skip_existing force_updates : bool)
    (s : Sys) : Prop :=
  ∃ script s' r,
    Forall no_write script ∧
    exec env skip_existing force_updates script s = Some s' ∧
    pc s' = Returned r ∧
    detached (st s) `prefix_of` detached (st s').

(** The paths of the rows that a reader yields, in order. *)
Definition item_paths (items : list ReadItem) : list string :=
  omap (λ it, match it with Row row => row !! "path" | ReadErr _ => None end)
    items.

Definition task_path (t : Task) : string :=
  match t with InitialUnit rel_path _ | RetryUnit rel_path => rel_path end.

(** A call to the outside is made for the entry [rel_path] of a job from
    [source] to [dest]: a HEAD or GET request for its remote, a stat, a hash
    or a write of its local file, or a stat or the creation of the directory
    of that file. *)
Definition event_for (env : Env) (source dest rel_path : string)
    (ev : Event) : Prop :=
  let remote := source +:+ rel_path in
  let local := path_Join env dest rel_path in
  match ev with
  | EvStat name _ => name = local ∨ name = path_Dir env local
  | EvMkdirAll name => name = path_Dir env local
  | EvHashFile name _ => name = local
  | EvDo method url _ => (method = "HEAD" ∨ method = "GET") ∧ url = remote
  | EvWriteFile name _ _ => name = local
  end.

Definition within (env : Env) (source dest : string) (paths : list string)
    (ev : Event) : Prop :=
  ∃ rel_path, rel_path ∈ paths ∧ event_for env source dest rel_path ev.

Definition write_within (env : Env) (dest : string) (paths : list string)
    (w : string * bytes) : Prop :=
  ∃ rel_path, rel_path ∈ paths ∧ w.1 = path_Join env dest rel_path.

(** In a run of a job from [source] to [dest], everything in flight and
    every call made so far is for a path of [paths]. *)
Definition manifest_inv (env : Env) (source dest : string)
    (paths : list string) (s : Sys) : Prop :=
  Source (job (st s)) = source ∧ Dest (job (st s)) = dest ∧
  Forall (.∈ paths) (item_paths (reader s)) ∧
  Forall (λ t, task_path t ∈ paths) (pending s) ∧
  Forall (.∈ paths) (retries (job (st s))) ∧
  Forall (write_within env dest paths) (detached (st s)) ∧
  Forall (within env source dest paths) (trace (st s)).

(** Every event of an explicit trace, and every write of an explicit list,
    is for the path [p]. *)
Ltac solve_within p :=
  repeat first
    [ done
    | apply Forall_cons; split;
      [exists p; split; [done|by cbn; auto]|]
    | apply Forall_app; split; [done|];
      apply Forall_cons; split; [by exists p|by apply Forall_nil_2] ].

(** * Proofs *)

(** ** Arithmetic of the counters *)

Lemma wrap64_small z : int64_range z → wrap64 z = z.
Proof.
  unfold int64_range, wrap64. intros H.
  rewrite Z.mod_small; lia.
Qed.

Lemma wrap64_add_l a b : wrap64 (wrap64 a + b) = wrap64 (a + b).
Proof.
  unfold wrap64.
  replace ((a + 2 ^ 63) `mod` 2 ^ 64 - 2 ^ 63 + b + 2 ^ 63)
    with ((a + 2 ^ 63) `mod` 2 ^ 64 + b) by lia.
  rewrite Zplus_mod_idemp_l. do 2 f_equal. lia.
Qed.

Lemma wrap64_range z : int64_range (wrap64 z).
Proof.
  unfold int64_range, wrap64.
  pose proof (Z.mod_pos_bound (z + 2 ^ 63) (2 ^ 64)). lia.
Qed.

Lemma wrap64_literal z :
  -9223372036854775808 ≤ z < 9223372036854775808 → wrap64 z = z.
Proof. intros H. apply wrap64_small. exact H. Qed.

(** ** The change detector *)

(** [Fetch] turns a transport error and a status other than 200 into its
    own error; the call is recorded either way. *)
Lemma Fetch_fails env method url s e :
  fetch_error (env_Do env (now s) method url) = Some e →
  Fetch env method url s
  = (Fail e, mkState (job s)
               (EvDo method url (env_Do env (now s) method url) :: trace s)
               (detached s)).
Proof.
  unfold fetch_error. intros H. unfold_code. run_M.
  destruct (env_Do env _ _ _) as [rsp|e'].
  - destruct (StatusCode rsp =? 200) eqn:E; [done|]. cbn. congruence.
  - cbn. congruence.
Qed.

(** C5.  When the probe of [HasHashChanged] fails, because the transport
    returns an error or because the status is not 200, the comparison answers
    "changed" and hands that error to its caller. *)
Theorem C5_failed_probe_reports_changed env local_hash remote s e :
  fetch_error (env_Do env (now s) "HEAD" remote) = Some e →
  (HasHashChanged env local_hash remote s).1 = (true, Some e).
Proof.
  intros H. unfold HasHashChanged. run_M.
  by rewrite (Fetch_fails _ _ _ _ _ H).
Qed.

Lemma C5_failed_probe_witness :
  (HasHashChanged env_down "h" "http://src/a" (fresh "http://src/" "dest")).1
  = (true, Some "connection refused").
Proof. apply C5_failed_probe_reports_changed. reflexivity. Defined.

(** [HasChanged] passes the same answer on when the local file could be
    hashed. *)
Lemma HasChanged_failed_probe env local remote s h e :
  env_HashFile env (now s) local = Ok h →
  fetch_error (env_Do env (S (now s)) "HEAD" remote) = Some e →
  (HasChanged env local remote s).1 = (true, Some e).
Proof.
  intros Hh H. unfold HasChanged, HasHashChanged, utils_HashFile. run_M.
  rewrite Hh. run_M.
  by rewrite (Fetch_fails env "HEAD" remote
                (mkState (job s) (EvHashFile local (Ok h) :: trace s) (detached s)) e H).
Qed.

(** A probe answered with 200 whose validator equals [local_hash] makes
    [HasHashChanged] answer "unchanged", with a single HEAD request. *)
Lemma HasHashChanged_same env local_hash remote s rsp :
  env_Do env (now s) "HEAD" remote = Ok rsp →
  StatusCode rsp = 200 →
  local_hash = remote_fingerprint rsp →
  HasHashChanged env local_hash remote s
  = ((false, None),
     mkState (job s) (EvDo "HEAD" remote (Ok rsp) :: trace s) (detached s)).
Proof.
  intros HDo H200 Hfp. unfold remote_fingerprint in Hfp.
  unfold_code. run_M. rewrite HDo. run_M. rewrite H200. run_M.
  rewrite <- Hfp, String.eqb_refl. done.
Qed.

(** The same for [HasChanged], which hashes the local file first. *)
Lemma HasChanged_same env local remote s local_hash rsp :
  env_HashFile env (now s) local = Ok local_hash →
  env_Do env (S (now s)) "HEAD" remote = Ok rsp →
  StatusCode rsp = 200 →
  local_hash = remote_fingerprint rsp →
  HasChanged env local remote s
  = ((false, None),
     mkState (job s)
       (EvDo "HEAD" remote (Ok rsp) :: EvHashFile local (Ok local_hash) :: trace s)
       (detached s)).
Proof.
  intros Hh HDo H200 Hfp. unfold HasChanged, utils_HashFile. run_M.
  rewrite Hh. run_M.
  by rewrite (HasHashChanged_same env local_hash remote
                (mkState (job s) (EvHashFile local (Ok local_hash) :: trace s) (detached s))
                rsp HDo H200 Hfp).
Qed.

(** A unit of work that finds the local file absent fetches it: [ClonePath]
    makes no probe and issues one GET request, for the remote of the entry. *)
Lemma ClonePath_absent_fetches env rel_path ensure_changes s :
  env_Stat env (now s) (path_Join env (Dest (job s)) rel_path) = StatNotExist →
  get_requests (trace (ClonePath env rel_path ensure_changes s).2)
  = (Source (job s) +:+ rel_path) :: get_requests (trace s).
Proof.
  intros Hstat. unfold_code. run_M. rewrite Hstat. run_M.
  destruct (os_IsNotExist _); run_M;
    (destruct (env_Do _ _ _ _) as [rsp|e]; run_M;
     [destruct (StatusCode rsp =? 200); run_M; [destruct (Body rsp); run_M|]|]);
    done.
Qed.

(** C6.  A row whose local copy does not exist is always fetched: whatever
    the two toggles and whatever fingerprint the row carries, the decision is
    [D_Fetch], no probe is made, and the turn of the loop only counts the
    entry as scheduled and submits its unit of work; and when that unit runs
    and the file is still absent, it issues the GET request of the entry. *)
Theorem C6_absent_local_copy_is_fetched
    env skip_existing force_updates row rel_path s :
  let local := path_Join env (Dest (job s)) rel_path in
  row !! "path" = Some rel_path →
  env_Stat env (now s) local = StatNotExist →
  (decide_entry env skip_existing force_updates row rel_path s).1 = D_Fetch true ∧
  loop_body env skip_existing force_updates row s
  = (Some (InitialUnit rel_path true),
     mkState (add_counter c_Scheduled 1 (job s))
       (EvStat local StatNotExist :: trace s) (detached s)) ∧
  ∀ s',
    env_Stat env (now s') (path_Join env (Dest (job s')) rel_path) = StatNotExist →
    get_requests (trace (run_task env (InitialUnit rel_path true) s').2)
    = (Source (job s') +:+ rel_path) :: get_requests (trace s').
Proof.
  intros local Hpath Hstat. subst local. split_and!.
  - unfold decide_entry, os_Stat. run_M. rewrite Hstat. run_M. done.
  - unfold loop_body, decide_entry, os_Stat. rewrite Hpath. run_M.
    rewrite Hstat. run_M. done.
  - intros s' Hstat'.
    pose proof (ClonePath_absent_fetches env rel_path true s' Hstat') as HG.
    unfold run_task, initial_unit. run_M.
    destruct (ClonePath env rel_path true s') as [[e|] s1]; run_M; done.
Qed.

Lemma C6_absent_local_copy_witness :
  (decide_entry env_disk_full true false {[ "path" := "a"; "file_hash" := "h" ]} "a"
     (fresh "http://src/" "dest")).1 = D_Fetch true ∧
  loop_body env_disk_full true false {[ "path" := "a"; "file_hash" := "h" ]}
    (fresh "http://src/" "dest")
  = (Some (InitialUnit "a" true),
     mkState (add_counter c_Scheduled 1 (NewWOFClone "http://src/" "dest"))
       [EvStat "dest/a" StatNotExist] []) ∧
  ∀ s',
    env_Stat env_disk_full (now s') (path_Join env_disk_full (Dest (job s')) "a")
    = StatNotExist →
    get_requests (trace (run_task env_disk_full (InitialUnit "a" true) s').2)
    = (Source (job s') +:+ "a") :: get_requests (trace s').
Proof.
  apply (C6_absent_local_copy_is_fetched env_disk_full true false
           {[ "path" := "a"; "file_hash" := "h" ]} "a" (fresh "http://src/" "dest"));
    reflexivity.
Defined.

(** C7.  A row whose local copy exists and whose fingerprints are equal is
    skipped when neither toggle is set: the decision is [D_Skip], the turn of
    the loop adds one to [Scheduled], [Completed] and [Skipped], submits
    nothing and issues no GET request. *)
Theorem C7_unchanged_entry_is_skipped env row rel_path s :
  let remote := Source (job s) +:+ rel_path in
  let local := path_Join env (Dest (job s)) rel_path in
  row !! "path" = Some rel_path →
  os_IsNotExist (env_Stat env (now s) local) = false →
  fingerprints_equal env row local remote (S (now s)) →
  (decide_entry env false false row rel_path s).1 = D_Skip ∧
  (loop_body env false false row s).1 = None ∧
  job (loop_body env false false row s).2
  = add_counter c_Skipped 1
      (add_counter c_Completed 1 (add_counter c_Scheduled 1 (job s))) ∧
  detached (loop_body env false false row s).2 = detached s ∧
  get_requests (trace (loop_body env false false row s).2)
  = get_requests (trace s).
Proof.
  intros remote local Hpath Hstat Hfp. subst remote local.
  unfold fingerprints_equal in Hfp.
  unfold loop_body, decide_entry, os_Stat. rewrite Hpath. run_M.
  rewrite Hstat. run_M.
  destruct (row !! "file_hash") as [file_hash|].
  - destruct Hfp as (rsp & HDo & H200 & Heq).
    erewrite HasHashChanged_same; [|run_M; eauto..]. run_M. done.
  - destruct Hfp as (local_hash & rsp & Hh & HDo & H200 & Heq).
    erewrite HasChanged_same; [|run_M; eauto..]. run_M. done.
Qed.

Lemma C7_unchanged_entry_witness :
  (decide_entry env_same false false {[ "path" := "a" ]} "a"
     (fresh "http://src/" "dest")).1 = D_Skip ∧
  (loop_body env_same false false {[ "path" := "a" ]} (fresh "http://src/" "dest")).1
  = None ∧
  job (loop_body env_same false false {[ "path" := "a" ]} (fresh "http://src/" "dest")).2
  = add_counter c_Skipped 1
      (add_counter c_Completed 1
         (add_counter c_Scheduled 1 (NewWOFClone "http://src/" "dest"))) ∧
  detached (loop_body env_same false false {[ "path" := "a" ]}
              (fresh "http://src/" "dest")).2 = [] ∧
  get_requests (trace (loop_body env_same false false {[ "path" := "a" ]}
                         (fresh "http://src/" "dest")).2) = [].
Proof.
  apply (C7_unchanged_entry_is_skipped env_same {[ "path" := "a" ]} "a"
           (fresh "http://src/" "dest")).
  - reflexivity.
  - reflexivity.
  - exists "h", (ex_rsp "h"). vm_compute. repeat split; reflexivity.
Defined.

(** ** [ClonePath] and the units of work *)

(** [ClonePath] with [ensure_changes] set, on a local copy that is there and
    equal to the remote one: [Skipped] is counted and nil is returned. *)
Lemma ClonePath_skips env rel_path s local_hash rsp :
  let remote := Source (job s) +:+ rel_path in
  let local := path_Join env (Dest (job s)) rel_path in
  os_IsNotExist (env_Stat env (now s) local) = false →
  env_HashFile env (S (now s)) local = Ok local_hash →
  env_Do env (S (S (now s))) "HEAD" remote = Ok rsp →
  StatusCode rsp = 200 →
  local_hash = remote_fingerprint rsp →
  ClonePath env rel_path true s
  = (None,
     mkState (add_counter c_Skipped 1 (job s))
       (EvDo "HEAD" remote (Ok rsp) :: EvHashFile local (Ok local_hash)
          :: EvStat local (env_Stat env (now s) local) :: trace s)
       (detached s)).
Proof.
  intros remote local Hstat Hh HDo H200 Hfp. subst remote local.
  unfold ClonePath, os_Stat. run_M. rewrite Hstat. run_M.
  erewrite HasChanged_same; [|run_M; eauto..]. run_M. done.
Qed.

(** C10.  A unit of work whose [ClonePath] runs with [ensure_changes] set on
    a local copy that is there and matches the remote validator counts the
    entry twice: [ClonePath] adds one to [Skipped] and returns nil, and the
    unit then adds one to [Success] (initial pass) or takes one from [Error]
    (retry pass), besides adding one to [Completed]. *)
Theorem C10_worker_skip_is_counted_twice env rel_path s local_hash rsp :
  let remote := Source (job s) +:+ rel_path in
  let local := path_Join env (Dest (job s)) rel_path in
  os_IsNotExist (env_Stat env (now s) local) = false →
  env_HashFile env (S (now s)) local = Ok local_hash →
  env_Do env (S (S (now s))) "HEAD" remote = Ok rsp →
  StatusCode rsp = 200 →
  local_hash = remote_fingerprint rsp →
  (ClonePath env rel_path true s).1 = None ∧
  job (ClonePath env rel_path true s).2 = add_counter c_Skipped 1 (job s) ∧
  job (initial_unit env rel_path true s).2
  = add_counter c_Completed 1
      (add_counter c_Success 1 (add_counter c_Skipped 1 (job s))) ∧
  job (retry_unit env rel_path s).2
  = add_counter c_Completed 1
      (add_counter c_Error (-1) (add_counter c_Skipped 1 (job s))).
Proof.
  intros remote local Hstat Hh HDo H200 Hfp.
  pose proof (ClonePath_skips env rel_path s local_hash rsp Hstat Hh HDo H200 Hfp) as HC.
  unfold initial_unit, retry_unit. run_M. rewrite HC. run_M. done.
Qed.

Lemma C10_worker_skip_witness :
  (ClonePath env_same "a" true (fresh "http://src/" "dest")).1 = None ∧
  job (ClonePath env_same "a" true (fresh "http://src/" "dest")).2
  = add_counter c_Skipped 1 (NewWOFClone "http://src/" "dest") ∧
  job (initial_unit env_same "a" true (fresh "http://src/" "dest")).2
  = add_counter c_Completed 1
      (add_counter c_Success 1
         (add_counter c_Skipped 1 (NewWOFClone "http://src/" "dest"))) ∧
  job (retry_unit env_same "a" (fresh "http://src/" "dest")).2
  = add_counter c_Completed 1
      (add_counter c_Error (-1)
         (add_counter c_Skipped 1 (NewWOFClone "http://src/" "dest"))).
Proof.
  apply (C10_worker_skip_is_counted_twice env_same "a"
           (fresh "http://src/" "dest") "h" (ex_rsp "h")); reflexivity.
Defined.

(** [Process] returns nil as soon as the content is fetched and read: the
    write is only started, and whatever it does later is not the result of
    [Process].  The GET request is made at the instant [t], after the stat
    of the directory and, when the directory is missing, [os.MkdirAll]. *)
Lemma Process_returns_nil_before_the_store env remote local s rsp contents :
  let t := if os_IsNotExist (env_Stat env (now s) (path_Dir env local))
           then S (S (now s)) else S (now s) in
  env_Do env t "GET" remote = Ok rsp →
  StatusCode rsp = 200 →
  Body rsp = Ok contents →
  (Process env remote local s).1 = None ∧
  job (Process env remote local s).2 = job s ∧
  detached (Process env remote local s).2 = detached s ++ [(local, contents)].
Proof.
  intros t HDo H200 HB. subst t. unfold_code. run_M.
  destruct (os_IsNotExist _); run_M; rewrite HDo; run_M;
    rewrite H200; run_M; rewrite HB; run_M; done.
Qed.

(** C4 fails on the code.  An entry whose content is fetched and whose write
    fails, in a job of that single entry: [ClonePath] returns nil to the unit,
    which is recorded as finished without an error and pushes nothing for a
    retry; the failed write only moves one count from [Success] to [Error],
    and the job returns nil. *)
Theorem C4_store_failure_is_not_the_units_result :
  ∃ s,
    exec env_disk_full false false [Coord; Coord; Run 0; Write 0; Coord]%nat
      (CloneMetaFile (fresh "http://src/" "dest") (Ok [ex_row "a"])) = Some s ∧
    EvWriteFile "dest/a" [] (Some "no space left on device") ∈ trace (st s) ∧
    finished s = [(InitialUnit "a" true, None)] ∧
    retries (job (st s)) = [] ∧
    Success (job (st s)) = 0 ∧ Error (job (st s)) = 1 ∧
    pc s = Returned None.
Proof.
  eexists. split; [vm_compute; reflexivity|].
  split; [apply list_elem_of_here|]. repeat split.
Qed.

(** ** What one move does to the job *)

Lemma write_goroutine_job env local contents s :
  job (write_goroutine env local contents s).2 = job s ∨
  job (write_goroutine env local contents s).2
  = add_counter c_Error 1 (add_counter c_Success (-1) (job s)).
Proof.
  unfold_code. run_M. case_match; run_M; auto.
Qed.

(** A detached write touches neither the pool nor what the gate reads. *)
Lemma write_goroutine_frame env local contents s :
  let c' := job (write_goroutine env local contents s).2 in
  retries c' = retries (job s) ∧ Scheduled c' = Scheduled (job s) ∧
  Completed c' = Completed (job s) ∧ Skipped c' = Skipped (job s) ∧
  MaxRetries c' = MaxRetries (job s) ∧
  Source c' = Source (job s) ∧ Dest c' = Dest (job s).
Proof.
  intros c'. subst c'.
  destruct (write_goroutine_job env local contents s) as [-> | ->]; done.
Qed.

(** The effect of [ClonePath] on the job: nothing, or one more [Skipped]
    together with a nil result. *)
Lemma ClonePath_job env rel_path ensure_changes s :
  job (ClonePath env rel_path ensure_changes s).2 = job s ∨
  ((ClonePath env rel_path ensure_changes s).1 = None ∧
   job (ClonePath env rel_path ensure_changes s).2
   = add_counter c_Skipped 1 (job s)).
Proof.
  unfold_code. run_M.
  repeat (case_match; run_M; simplify_eq; auto).
Qed.

(** A unit of work adds one to [Completed], leaves [Scheduled] alone, and
    pushes its path exactly when it is a unit of the initial pass whose
    [ClonePath] returned an error. *)
Lemma run_task_frame env t s :
  let r := (run_task env t s).1 in
  let c' := job (run_task env t s).2 in
  retries c'
  = match t, r with
    | InitialUnit rel_path _, Some _ => rel_path :: retries (job s)
    | _, _ => retries (job s)
    end ∧
  Scheduled c' = Scheduled (job s) ∧
  Completed c' = wrap64 (Completed (job s) + 1) ∧
  MaxRetries c' = MaxRetries (job s) ∧
  Source c' = Source (job s) ∧ Dest c' = Dest (job s).
Proof.
  intros r c'. subst r c'. destruct t as [rel_path ec|rel_path];
    unfold run_task, initial_unit, retry_unit; run_M.
  - pose proof (ClonePath_job env rel_path ec s) as HC.
    destruct (ClonePath env rel_path ec s) as [[e|] s1]; run_M;
      destruct HC as [-> | [? ->]]; done.
  - pose proof (ClonePath_job env rel_path true s) as HC.
    destruct (ClonePath env rel_path true s) as [[e|] s1]; run_M;
      destruct HC as [-> | [? ->]]; done.
Qed.

(** The decision of the manifest loop changes nothing in the job. *)
Lemma decide_entry_job env skip_existing force_updates row rel_path s :
  job (decide_entry env skip_existing force_updates row rel_path s).2 = job s.
Proof.
  unfold_code. run_M.
  repeat (case_match; run_M; simplify_eq; auto).
Qed.

(** A turn of the manifest loop leaves the pool alone; it adds one to
    [Scheduled] exactly when the row has a path. *)
Lemma loop_body_frame env skip_existing force_updates row s :
  let t := (loop_body env skip_existing force_updates row s).1 in
  let c' := job (loop_body env skip_existing force_updates row s).2 in
  retries c' = retries (job s) ∧
  Scheduled c'
  = match row !! "path" with
    | Some _ => wrap64 (Scheduled (job s) + 1)
    | None => Scheduled (job s)
    end ∧
  (is_Some t → is_Some (row !! "path")) ∧
  MaxRetries c' = MaxRetries (job s) ∧
  Source c' = Source (job s) ∧ Dest c' = Dest (job s).
Proof.
  intros t c'. subst t c'. unfold loop_body.
  destruct (row !! "path") as [rel_path|]; run_M.
  2: { repeat split; done || by intros []. }
  pose proof (decide_entry_job env skip_existing force_updates row rel_path s) as HD.
  destruct (decide_entry _ _ _ _ _ _) as [[|ec] s1]; run_M; rewrite HD; eauto 10.
Qed.

(** ** The budget gate *)

(** The gate reads the pool, [Scheduled] and [MaxRetries], nothing else. *)
Lemma budget_gate_ext c c' :
  retries c' = retries c → Scheduled c' = Scheduled c →
  MaxRetries c' = MaxRetries c → budget_gate c' = budget_gate c.
Proof.
  unfold budget_gate, retries_Length. by intros -> -> ->.
Qed.

Lemma budget_gate_empty c : retries c = [] → budget_gate c = NoRetries.
Proof. unfold budget_gate, retries_Length. by intros ->. Qed.

Lemma retries_Length_pos c : retries c ≠ [] → (0 <? retries_Length c) = true.
Proof.
  unfold retries_Length. destruct (retries c); [done|]. intros _.
  apply Z.ltb_lt. cbn [length]. lia.
Qed.

(** The default ceiling: one failure in four is within the budget, four in
    ten are not. *)
Example budget_gate_one_of_four :
  budget_gate (mkWOFClone "http://src/" "dest" 3 1 0 4 4 25 ["p1"])
  = Proceed 25%float.
Proof. vm_compute. reflexivity. Qed.

Example budget_gate_four_of_ten :
  pc ex_aborting = InitialWait ∧
  retries (job (st ex_aborting)) = ["p7"; "p5"; "p3"; "p1"] ∧
  Scheduled (job (st ex_aborting)) = 10 ∧
  budget_gate (job (st ex_aborting)) = Excessive 40%float.
Proof. split_and!; vm_compute; reflexivity. Qed.

(** With the default ceiling and up to 300 scheduled units, the comparison
    of line 221 is the comparison of integers [scheduled < 4 * to_retry]. *)
Example default_ceiling_on_small_jobs :
  forallb (λ scheduled,
             forallb (λ to_retry,
                        Bool.eqb (PrimFloat.ltb 25 (pct_failed to_retry scheduled))
                                 (scheduled <? 4 * to_retry))
                     (seqZ 1 scheduled))
          (seqZ 1 300) = true.
Proof. vm_compute. reflexivity. Qed.

(** Once [CloneMetaFile] has returned with every unit joined, only detached
    writes can still move, and they leave the pool, the units and what the
    gate reads as they are. *)
Lemma returned_is_final env skip_existing force_updates script :
  ∀ s s' r,
    pc s = Returned r → pending s = [] →
    exec env skip_existing force_updates script s = Some s' →
    pc s' = Returned r ∧ pending s' = [] ∧ finished s' = finished s ∧
    retries (job (st s')) = retries (job (st s)) ∧
    Scheduled (job (st s')) = Scheduled (job (st s)) ∧
    Completed (job (st s')) = Completed (job (st s)).
Proof.
  induction script as [|ch script IH]; intros s s' r Hpc Hpend Hex.
  - cbn in Hex. by simplify_eq.
  - cbn [exec] in Hex. destruct ch as [|i|i]; cbn [sys_step] in Hex.
    + unfold coord_step in Hex. by rewrite Hpc in Hex.
    + by rewrite Hpend in Hex.
    + destruct (detached (st s) !! i) as [[local contents]|]; [|done].
      pose proof (write_goroutine_frame env local contents
        (mkState (job (st s)) (trace (st s)) (delete i (detached (st s)))))
        as (Hr & Hs & Hc & _).
      destruct (write_goroutine _ _ _ _) as [w st'].
      apply IH with (r := r) in Hex; [|done..].
      cbn in *. destruct Hex as (? & ? & ? & ? & ? & ?).
      repeat split; congruence.
Qed.

(** C2.  When the initial pass ends with a non-empty pool and the percentage
    of failures, computed in [float64] as lines 216-219 do, is above
    [MaxRetries], [CloneMetaFile] returns its error without touching the
    state, and in whatever happens afterwards no unit of work is submitted or
    run and the pool keeps its entries. *)
Theorem C2_excessive_errors_abort_the_job env skip_existing force_updates s :
  pc s = InitialWait → pending s = [] →
  retries (job (st s)) ≠ [] →
  PrimFloat.ltb (MaxRetries (job (st s)))
    (pct_failed (retries_Length (job (st s))) (Scheduled (job (st s)))) = true →
  ∃ s',
    coord_step env skip_existing force_updates s = Some s' ∧
    pc s' = Returned (Some E_RETRIES) ∧ st s' = st s ∧
    ∀ script s'',
      exec env skip_existing force_updates script s' = Some s'' →
      pc s'' = Returned (Some E_RETRIES) ∧
      pending s'' = [] ∧ finished s'' = finished s ∧
      retries (job (st s'')) = retries (job (st s)) ∧
      retries (job (st s'')) ≠ [].
Proof.
  intros Hpc Hpend Hne Hpct.
  unfold coord_step. rewrite Hpc, Hpend. unfold budget_gate.
  rewrite (retries_Length_pos _ Hne). cbn zeta. rewrite Hpct.
  eexists. split; [reflexivity|]. cbn. repeat split.
  all: intros; edestruct returned_is_final as (?&?&?&?&?&?); [| |eassumption|];
    cbn in *; try done; congruence.
Qed.

Lemma C2_excessive_errors_witness :
  ∃ s',
    coord_step env_failing false false ex_aborting = Some s' ∧
    pc s' = Returned (Some E_RETRIES) ∧ st s' = st ex_aborting ∧
    ∀ script s'',
      exec env_failing false false script s' = Some s'' →
      pc s'' = Returned (Some E_RETRIES) ∧
      pending s'' = [] ∧ finished s'' = finished ex_aborting ∧
      retries (job (st s'')) = retries (job (st ex_aborting)) ∧
      retries (job (st s'')) ≠ [].
Proof.
  apply (C2_excessive_errors_abort_the_job env_failing false false ex_aborting);
    [ vm_compute; reflexivity | vm_compute; reflexivity | by vm_compute
    | vm_compute; reflexivity ].
Defined.

(** ** Traces only grow *)

Lemma ClonePath_trace env rel_path ensure_changes s :
  trace s `suffix_of` trace (ClonePath env rel_path ensure_changes s).2.
Proof.
  unfold_code. run_M. repeat (case_match; run_M; simplify_eq); solve_suffix.
Qed.

Lemma run_task_trace env t s :
  trace s `suffix_of` trace (run_task env t s).2.
Proof.
  destruct t as [rel_path ec|rel_path];
    unfold run_task, initial_unit, retry_unit; run_M.
  - pose proof (ClonePath_trace env rel_path ec s) as HC.
    destruct (ClonePath env rel_path ec s) as [[e|] s1]; run_M; done.
  - pose proof (ClonePath_trace env rel_path true s) as HC.
    destruct (ClonePath env rel_path true s) as [[e|] s1]; run_M; done.
Qed.

Lemma loop_body_trace env skip_existing force_updates row s :
  trace s `suffix_of` trace (loop_body env skip_existing force_updates row s).2.
Proof.
  unfold_code. run_M. repeat (case_match; run_M; simplify_eq); solve_suffix.
Qed.

Lemma write_goroutine_trace env local contents s :
  trace s `suffix_of` trace (write_goroutine env local contents s).2.
Proof.
  unfold_code. run_M. repeat (case_match; run_M; simplify_eq); solve_suffix.
Qed.

Lemma sys_step_trace env skip_existing force_updates ch s s' :
  sys_step env skip_existing force_updates ch s = Some s' →
  trace (st s) `suffix_of` trace (st s').
Proof.
  destruct ch as [|i|i]; cbn [sys_step]; intros H.
  - unfold coord_step in H. destruct (pc s).
    + destruct (reader s) as [|[row|e] rest]; simplify_eq; [done| |done].
      pose proof (loop_body_trace env skip_existing force_updates row (st s)).
      destruct (loop_body _ _ _ _ _). by simplify_eq.
    + destruct (pending s); [|done].
      destruct (budget_gate _); by simplify_eq.
    + destruct (0 <? _); [|by simplify_eq].
      unfold retry_loop_body in H. run_M.
      destruct (retries (job (st s))); run_M; by simplify_eq.
    + destruct (pending s); by simplify_eq.
    + done.
  - destruct (pending s !! i) as [t|]; [|done].
    pose proof (run_task_trace env t (st s)).
    destruct (run_task _ _ _). by simplify_eq.
  - destruct (detached (st s) !! i) as [[local contents]|]; [|done].
    pose proof (write_goroutine_trace env local contents
      (mkState (job (st s)) (trace (st s)) (delete i (detached (st s))))).
    destruct (write_goroutine _ _ _ _). by simplify_eq.
Qed.

Lemma exec_trace env skip_existing force_updates script :
  ∀ s s', exec env skip_existing force_updates script s = Some s' →
          trace (st s) `suffix_of` trace (st s').
Proof.
  induction script as [|ch script IH]; intros s s' H; cbn [exec] in H.
  - by simplify_eq.
  - destruct (sys_step _ _ _ ch s) as [s1|] eqn:Hs; [|done].
    etrans; [by eapply sys_step_trace|by apply IH].
Qed.

Lemma failed_fetches_app tr1 tr2 :
  failed_fetches (tr1 ++ tr2) = (failed_fetches tr1 + failed_fetches tr2)%nat.
Proof.
  induction tr1 as [|ev tr1 IH]; [done|].
  destruct ev; cbn; try done. case_match; cbn; lia.
Qed.

Lemma failed_fetches_suffix tr tr' :
  tr `suffix_of` tr' → (failed_fetches tr ≤ failed_fetches tr')%nat.
Proof. intros [k ->]. rewrite failed_fetches_app. lia. Qed.

Lemma absent_in_suffix locals tr tr' :
  tr `suffix_of` tr' → absent_in locals tr' = true → absent_in locals tr = true.
Proof.
  intros [k ->]. unfold absent_in. rewrite forallb_app.
  by intros [_ ?]%andb_true_iff.
Qed.

Lemma stores_ok_suffix tr tr' :
  tr `suffix_of` tr' → stores_ok tr' = true → stores_ok tr = true.
Proof.
  intros [k ->]. unfold stores_ok. rewrite forallb_app.
  by intros [_ ?]%andb_true_iff.
Qed.

(** ** The coordinator only moves forward *)

(** The coordinator never comes back to the manifest loop or to its
    barrier. *)
Lemma sys_step_pc_back env skip_existing force_updates ch s s' :
  sys_step env skip_existing force_updates ch s = Some s' →
  pc s' = InLoop ∨ pc s' = InitialWait →
  pc s = InLoop ∨ pc s = InitialWait.
Proof.
  intros Hstep Hpc'. destruct ch as [|i|i]; cbn [sys_step] in Hstep.
  - unfold coord_step in Hstep. destruct (pc s); auto.
    + destruct (0 <? _); [destruct (retry_loop_body _) as [[t|] st']|];
        simplify_eq; cbn in Hpc'; by destruct Hpc'.
    + destruct (pending s); simplify_eq. cbn in Hpc'. by destruct Hpc'.
    + done.
  - destruct (pending s !! i); [|done].
    destruct (run_task _ _ _). by simplify_eq.
  - destruct (detached (st s) !! i) as [[local contents]|]; [|done].
    destruct (write_goroutine _ _ _ _). by simplify_eq.
Qed.

Lemma exec_pc_back env skip_existing force_updates script :
  ∀ s s', exec env skip_existing force_updates script s = Some s' →
          pc s' = InLoop ∨ pc s' = InitialWait →
          pc s = InLoop ∨ pc s = InitialWait.
Proof.
  induction script as [|ch script IH]; intros s s' H Hpc; cbn [exec] in H.
  - by simplify_eq.
  - destruct (sys_step _ _ _ ch s) as [s1|] eqn:Hs; [|done].
    eapply sys_step_pc_back; [done|]. by eapply IH.
Qed.

(** ** The initial pass: what has been scheduled bounds what can be retried *)

Lemma scheduled_inv_step env skip_existing force_updates s0 items ch s s' :
  sys_step env skip_existing force_updates ch s = Some s' →
  scheduled_inv s0 items s → scheduled_inv s0 items s'.
Proof.
  intros Hstep Hinv Hpc'. destruct ch as [|i|i]; cbn [sys_step] in Hstep.
  - unfold coord_step in Hstep. destruct (pc s) eqn:Hpc.
    + destruct Hinv as (k & HS & Hk & Hp & Hr); [by left|].
      destruct (reader s) as [|[row|e] rest] eqn:Hrd; simplify_eq.
      * exists k. cbn in *. repeat split; auto.
      * pose proof (loop_body_frame env skip_existing force_updates row (st s))
          as (Hr' & HS' & Hsome & _).
        destruct (loop_body _ _ _ _ _) as [t st']. simplify_eq. cbn in *.
        destruct (row !! "path") as [p|] eqn:Hpath.
        -- exists (S k). rewrite HS', HS, wrap64_add_l, Hr'.
           repeat split; [f_equal; lia|lia| |lia].
           rewrite length_app. destruct t; cbn; lia.
        -- exists k. rewrite HS', Hr'. repeat split; [done|lia| |lia].
           destruct t as [t|]; [|rewrite app_nil_r; lia].
           destruct Hsome as [? ?]; [by eexists|done].
      * cbn in Hpc'. by destruct Hpc'.
    + destruct (pending s); [|done].
      destruct (budget_gate _); simplify_eq; cbn in Hpc'; by destruct Hpc'.
    + destruct (0 <? _).
      * destruct (retry_loop_body _) as [[t|] st']; simplify_eq;
          cbn in Hpc'; by destruct Hpc'.
      * simplify_eq. cbn in Hpc'. by destruct Hpc'.
    + destruct (pending s); simplify_eq. cbn in Hpc'. by destruct Hpc'.
    + done.
  - destruct (pending s !! i) as [t|] eqn:Hi; [|done].
    pose proof (run_task_frame env t (st s)) as (Hr' & HS' & _).
    destruct (run_task _ _ _) as [r st']. simplify_eq. cbn in *.
    destruct Hinv as (k & HS & Hk & Hp & Hr); [done|].
    exists k. rewrite HS', Hr'. repeat split; [done|done| |].
    + rewrite length_delete by eauto. apply lookup_lt_Some in Hi. lia.
    + destruct t, r; cbn; lia.
  - destruct (detached (st s) !! i) as [[local contents]|]; [|done].
    pose proof (write_goroutine_frame env local contents
      (mkState (job (st s)) (trace (st s)) (delete i (detached (st s)))))
      as (Hr' & HS' & _).
    destruct (write_goroutine _ _ _ _) as [w st']. simplify_eq. cbn in *.
    destruct Hinv as (k & HS & Hk & Hp & Hr); [done|].
    exists k. rewrite HS', Hr'. done.
Qed.

Lemma scheduled_inv_exec env skip_existing force_updates s0 items script :
  ∀ s s', exec env skip_existing force_updates script s = Some s' →
          scheduled_inv s0 items s → scheduled_inv s0 items s'.
Proof.
  induction script as [|ch script IH]; intros s s' H Hinv; cbn [exec] in H.
  - by simplify_eq.
  - destruct (sys_step _ _ _ ch s) as [s1|] eqn:Hs; [|done].
    eapply IH; [done|]. by eapply scheduled_inv_step.
Qed.

(** C9.  When [Scheduled] is zero at the barrier of the initial pass, the
    gate finds an empty pool: it does not compute the percentage, and
    [CloneMetaFile] returns nil.  The job starts in any state whose pool is
    no longer than [Scheduled], with a manifest that does not overflow the
    counter. *)
Theorem C9_nothing_scheduled_passes_the_gate
    env skip_existing force_updates s0 items script s :
  Z.of_nat (length (retries (job s0))) ≤ Scheduled (job s0) →
  Scheduled (job s0) + Z.of_nat (length items) < 2 ^ 63 →
  exec env skip_existing force_updates script (CloneMetaFile s0 (Ok items)) = Some s →
  pc s = InitialWait → pending s = [] →
  Scheduled (job (st s)) = 0 →
  budget_gate (job (st s)) = NoRetries ∧
  coord_step env skip_existing force_updates s
  = Some (mkSys (st s) (reader s) [] (finished s) (Returned None)).
Proof.
  intros Hwf Hbound Hex Hpc Hpend Hzero.
  assert (retries (job (st s)) = []) as Hnil.
  { apply (scheduled_inv_exec _ _ _ s0 items) in Hex.
    - destruct Hex as (k & HS & Hk & Hp & Hr); [by right|].
      rewrite wrap64_small in HS by (unfold int64_range; lia).
      apply length_zero_iff_nil. lia.
    - intros _. exists 0%nat. cbn. rewrite Z.add_0_r.
      rewrite wrap64_small by (unfold int64_range; lia).
      repeat split; lia. }
  pose proof (budget_gate_empty _ Hnil) as Hgate.
  split; [done|]. unfold coord_step. by rewrite Hpc, Hpend, Hgate.
Qed.

Lemma C9_nothing_scheduled_witness :
  let s := mkSys (fresh "http://src/" "dest") [] [] [] InitialWait in
  budget_gate (job (st s)) = NoRetries ∧
  coord_step env_same false false s
  = Some (mkSys (st s) (reader s) [] (finished s) (Returned None)).
Proof.
  intros s.
  apply (C9_nothing_scheduled_passes_the_gate env_same false false
           (fresh "http://src/" "dest") [Row {[ "id" := "85633793" ]}]
           [Coord; Coord] s);
    [cbn; lia | cbn; lia | vm_compute; reflexivity | reflexivity..].
Defined.

(** ** The pool at the barrier *)

(** A turn of the manifest loop submits units of the initial pass only. *)
Lemma loop_body_task env skip_existing force_updates row s t :
  (loop_body env skip_existing force_updates row s).1 = Some t → is_initial t.
Proof.
  unfold loop_body. destruct (row !! "path") as [rel_path|]; run_M; [|done].
  destruct (decide_entry _ _ _ _ _ _) as [[|ec] s1]; run_M; [done|].
  by intros [= <-].
Qed.

Lemma pool_inv_step env skip_existing force_updates s0 ch s s' :
  sys_step env skip_existing force_updates ch s = Some s' →
  pool_inv s0 s → pool_inv s0 s'.
Proof.
  intros Hstep Hinv Hpc'.
  pose proof (sys_step_pc_back _ _ _ _ _ _ Hstep Hpc') as Hpc.
  destruct (Hinv Hpc) as [Hpd Hrt]. clear Hinv.
  destruct ch as [|i|i]; cbn [sys_step] in Hstep.
  - unfold coord_step in Hstep. destruct (pc s).
    + destruct (reader s) as [|[row|e] rest] eqn:Hrd; simplify_eq; [done| |done].
      pose proof (loop_body_frame env skip_existing force_updates row (st s))
        as (Hr' & _).
      pose proof (loop_body_task env skip_existing force_updates row (st s)) as Ht.
      destruct (loop_body _ _ _ _ _) as [t st']. simplify_eq. cbn -[failed_paths] in *.
      split; [|congruence].
      apply Forall_app. split; [done|].
      destruct t as [t|]; [|done]. apply Forall_singleton. by apply Ht.
    + destruct (pending s); [|done].
      destruct (budget_gate _); simplify_eq; cbn in Hpc'; by destruct Hpc'.
    + by destruct Hpc.
    + by destruct Hpc.
    + done.
  - destruct (pending s !! i) as [t|] eqn:Hi; [|done].
    pose proof (run_task_frame env t (st s)) as (Hr' & _).
    assert (is_initial t) as Ht by (by eapply Forall_lookup_1 in Hpd).
    destruct (run_task _ _ _) as [r st']. simplify_eq. cbn -[failed_paths] in *.
    split; [by apply Forall_delete|].
    rewrite Hr', Hrt. by destruct t, r.
  - destruct (detached (st s) !! i) as [[local contents]|]; [|done].
    pose proof (write_goroutine_frame env local contents
      (mkState (job (st s)) (trace (st s)) (delete i (detached (st s)))))
      as (Hr' & _).
    destruct (write_goroutine _ _ _ _) as [w st']. simplify_eq. cbn -[failed_paths] in *.
    split; [done|congruence].
Qed.

Lemma pool_inv_exec env skip_existing force_updates s0 script :
  ∀ s s', exec env skip_existing force_updates script s = Some s' →
          pool_inv s0 s → pool_inv s0 s'.
Proof.
  induction script as [|ch script IH]; intros s s' H Hinv; cbn [exec] in H.
  - by simplify_eq.
  - destruct (sys_step _ _ _ ch s) as [s1|] eqn:Hs; [|done].
    eapply IH; [done|]. by eapply pool_inv_step.
Qed.

(** ** The retry pass *)

Lemma retry_inv_step env skip_existing force_updates Q F1 S1 C1 pct ch s s' :
  sys_step env skip_existing force_updates ch s = Some s' →
  retry_inv Q F1 S1 C1 (Proceed pct) s → retry_inv Q F1 S1 C1 (Proceed pct) s'.
Proof.
  intros Hstep (Hret & Hperm & HS & HC & Hpc).
  destruct ch as [|i|i]; cbn [sys_step] in Hstep.
  - unfold coord_step in Hstep. destruct (pc s) eqn:Epc; [done| | | |done].
    + destruct Hpc as (Hpend & HQ & Hgate). rewrite Hpend, Hgate in Hstep.
      simplify_eq. unfold retry_inv; cbn -[wrap64].
      rewrite Hpend in *. cbn -[wrap64] in *. repeat split; done.
    + destruct (0 <? retries_Length (job (st s))) eqn:Hlen.
      * unfold retry_loop_body in Hstep. unfold retries_Length in Hlen. run_M.
        destruct (retries (job (st s))) as [|p l] eqn:Hrs; [done|].
        run_M. simplify_eq. unfold retry_inv; cbn -[wrap64].
        repeat split.
        -- apply Forall_app. split; [done|]. by apply Forall_singleton.
        -- rewrite <- Hperm. cbn. solve_Permutation.
        -- rewrite HS, wrap64_add_l. f_equal. cbn [length]. lia.
        -- rewrite HC. f_equal. rewrite length_app. cbn [length]. lia.
      * simplify_eq. unfold retry_inv; cbn -[wrap64]. repeat split; try done.
        apply Z.ltb_ge in Hlen. unfold retries_Length in Hlen.
        apply length_zero_iff_nil. lia.
    + destruct (pending s) eqn:Hpend; [|done]. simplify_eq.
      unfold retry_inv; cbn -[wrap64]. cbn -[wrap64] in *. repeat split; done.
  - destruct (pending s !! i) as [t|] eqn:Hi; [|done].
    pose proof (run_task_frame env t (st s)) as (Hr' & HS' & HC' & _).
    destruct (run_task _ _ _) as [r st']. simplify_eq. cbn in Hr', HS', HC'.
    assert (is_retry t) as Ht by (by eapply Forall_lookup_1 in Hret).
    assert (retries (job st') = retries (job (st s))) as Hr''.
    { rewrite Hr'. by destruct t. }
    unfold retry_inv; cbn -[wrap64]. rewrite Hr'', HS', HC'.
    pose proof (delete_Permutation _ _ _ Hi) as Hdel.
    repeat split.
    + by apply Forall_delete.
    + rewrite <- Hperm. rewrite Hdel at 2. solve_Permutation.
    + done.
    + rewrite HC, wrap64_add_l. f_equal.
      apply Permutation_length in Hdel. cbn [length] in Hdel. lia.
    + destruct (pc s); try done.
      * destruct Hpc as (Hpend & _). by rewrite Hpend in Hi.
      * destruct Hpc as (_ & _ & Hpend). by rewrite Hpend in Hi.
  - destruct (detached (st s) !! i) as [[local contents]|]; [|done].
    pose proof (write_goroutine_frame env local contents
      (mkState (job (st s)) (trace (st s)) (delete i (detached (st s)))))
      as (Hr' & HS' & HC' & _ & HM' & _).
    destruct (write_goroutine _ _ _ _) as [w st']. simplify_eq.
    cbn in Hr', HS', HC', HM'.
    unfold retry_inv; cbn -[wrap64]. rewrite Hr', HS', HC'.
    repeat split; try done.
    destruct (pc s); try done.
    destruct Hpc as (? & ? & <-). repeat split; try done.
    by apply budget_gate_ext.
Qed.

Lemma retry_inv_exec env skip_existing force_updates Q F1 S1 C1 pct script :
  ∀ s s', exec env skip_existing force_updates script s = Some s' →
          retry_inv Q F1 S1 C1 (Proceed pct) s →
          retry_inv Q F1 S1 C1 (Proceed pct) s'.
Proof.
  induction script as [|ch script IH]; intros s s' H Hinv; cbn [exec] in H.
  - by simplify_eq.
  - destruct (sys_step _ _ _ ch s) as [s1|] eqn:Hs; [|done].
    eapply IH; [done|]. by eapply retry_inv_step.
Qed.

(** A retry unit is [ClonePath] with [ensure_changes] forced to true,
    followed by one more [Completed]. *)
Lemma retry_unit_ensures_changes env rel_path s :
  (run_task env (RetryUnit rel_path) s).1 = (ClonePath env rel_path true s).1 ∧
  Completed (job (run_task env (RetryUnit rel_path) s).2)
  = wrap64 (Completed (job s) + 1).
Proof.
  split; [|apply run_task_frame].
  unfold run_task, retry_unit. run_M.
  destruct (ClonePath env rel_path true s) as [[e|] s1]; done.
Qed.

(** C8.  A job that starts with an empty pool and passes the gate with a
    non-excessive percentage: at the barrier the pool [Q] holds the paths of
    the units of the initial pass that failed; at the return the pool is
    empty; the units that ran during the retry pass are exactly one retry
    unit for each path of [Q], each of them a [ClonePath] with
    [ensure_changes] true that adds one to [Completed]; and [Scheduled] and
    [Completed] have grown by the length of [Q] (in [int64]; by the plain sum
    when it does not overflow).  This holds for every interleaving. *)
Theorem C8_retry_pass_drains_the_pool
    env skip_existing force_updates s0 items script1 script2 s1 s2 pct r :
  retries (job s0) = [] →
  exec env skip_existing force_updates script1 (CloneMetaFile s0 (Ok items))
  = Some s1 →
  pc s1 = InitialWait → pending s1 = [] →
  int64_range (Scheduled (job (st s1))) →
  int64_range (Completed (job (st s1))) →
  budget_gate (job (st s1)) = Proceed pct →
  exec env skip_existing force_updates script2 s1 = Some s2 →
  pc s2 = Returned r →
  let Q := failed_paths (finished s1) in
  let n := Z.of_nat (length Q) in
  retries (job (st s1)) = Q ∧
  r = None ∧ retries (job (st s2)) = [] ∧ pending s2 = [] ∧
  (finished s2).*1 ≡ₚ (RetryUnit <$> Q) ++ (finished s1).*1 ∧
  (∀ rel_path s,
     (run_task env (RetryUnit rel_path) s).1 = (ClonePath env rel_path true s).1 ∧
     Completed (job (run_task env (RetryUnit rel_path) s).2)
     = wrap64 (Completed (job s) + 1)) ∧
  Scheduled (job (st s2)) = wrap64 (Scheduled (job (st s1)) + n) ∧
  Completed (job (st s2)) = wrap64 (Completed (job (st s1)) + n) ∧
  (Scheduled (job (st s1)) + n < 2 ^ 63 →
   Scheduled (job (st s2)) = Scheduled (job (st s1)) + n).
Proof.
  intros Hempty Hex1 Hpc Hpend HS1 HC1 Hgate Hex Hret Q n.
  assert (retries (job (st s1)) = Q) as HQ.
  { apply (pool_inv_exec _ _ _ s0) in Hex1.
    - destruct Hex1 as [_ Hrt]; [by right|].
      by rewrite Hrt, Hempty, app_nil_r.
    - intros _. cbn. by rewrite Hempty. }
  split; [done|].
  apply (retry_inv_exec _ _ _ Q (finished s1).*1 (Scheduled (job (st s1)))
           (Completed (job (st s1))) pct) in Hex.
  - destruct Hex as (_ & Hperm & HS & HC & Hfin). rewrite Hret in Hfin.
    destruct Hfin as (-> & Hnil & Hp). rewrite Hnil, Hp in *.
    cbn -[wrap64] in *. rewrite app_nil_r in Hperm.
    rewrite Z.sub_0_r in HS, HC. rewrite Z.sub_0_r in HC.
    split_and!; try done.
    + intros rel_path s. apply retry_unit_ensures_changes.
    + intros Hlt. rewrite HS. apply wrap64_small.
      unfold int64_range in *. lia.
  - unfold retry_inv. rewrite Hpc, Hpend, HQ. cbn -[wrap64].
    rewrite Z.sub_diag, Z.add_0_r, Z.sub_0_r, Z.add_0_r.
    rewrite !wrap64_small by done. split_and!; try done.
    apply Permutation_app_comm.
Qed.

Lemma C8_retry_pass_witness :
  let Q := failed_paths (finished ex_flaky_barrier) in
  let n := Z.of_nat (length Q) in
  retries (job (st ex_flaky_barrier)) = Q ∧
  (None : option error) = None ∧
  retries (job (st ex_flaky_final)) = [] ∧ pending ex_flaky_final = [] ∧
  (finished ex_flaky_final).*1
    ≡ₚ (RetryUnit <$> Q) ++ (finished ex_flaky_barrier).*1 ∧
  (∀ rel_path s,
     (run_task env_flaky (RetryUnit rel_path) s).1
     = (ClonePath env_flaky rel_path true s).1 ∧
     Completed (job (run_task env_flaky (RetryUnit rel_path) s).2)
     = wrap64 (Completed (job s) + 1)) ∧
  Scheduled (job (st ex_flaky_final))
  = wrap64 (Scheduled (job (st ex_flaky_barrier)) + n) ∧
  Completed (job (st ex_flaky_final))
  = wrap64 (Completed (job (st ex_flaky_barrier)) + n) ∧
  (Scheduled (job (st ex_flaky_barrier)) + n < 2 ^ 63 →
   Scheduled (job (st ex_flaky_final))
   = Scheduled (job (st ex_flaky_barrier)) + n).
Proof.
  apply (C8_retry_pass_drains_the_pool env_flaky false false
           (fresh "http://src/" "dest") (Row <$> ex_rows)
           ex_initial_script ex_flaky_retry_script
           ex_flaky_barrier ex_flaky_final 20%float None);
    [ vm_compute; reflexivity | vm_compute; reflexivity | vm_compute; reflexivity
    | vm_compute; reflexivity | by vm_compute | by vm_compute
    | vm_compute; reflexivity | vm_compute; reflexivity | vm_compute; reflexivity ].
Defined.

(** ** Runs against an empty destination *)

Lemma absent_in_stat locals name r tr :
  name ∈ locals → absent_in locals (EvStat name r :: tr) = true →
  r = StatNotExist.
Proof.
  intros Hin. cbn. rewrite bool_decide_true by done.
  intros [H _]%andb_true_iff. by destruct r.
Qed.

(** The first call of [ClonePath] is the stat of the local file. *)
Lemma ClonePath_trace_stat env rel_path ensure_changes s :
  let local := path_Join env (Dest (job s)) rel_path in
  (EvStat local (env_Stat env (now s) local) :: trace s)
    `suffix_of` trace (ClonePath env rel_path ensure_changes s).2.
Proof.
  unfold_code. run_M. repeat (case_match; run_M; simplify_eq); solve_suffix.
Qed.

(** When the local file is reported absent, [ClonePath] goes straight to
    [Process]: the job is untouched, and the result is an error exactly when
    the fetch failed. *)
Lemma ClonePath_absent env locals rel_path ec s :
  path_Join env (Dest (job s)) rel_path ∈ locals →
  absent_in locals (trace (ClonePath env rel_path ec s).2) = true →
  job (ClonePath env rel_path ec s).2 = job s ∧
  (((ClonePath env rel_path ec s).1 = None ∧
    failed_fetches (trace (ClonePath env rel_path ec s).2)
    = failed_fetches (trace s)) ∨
   (is_Some (ClonePath env rel_path ec s).1 ∧
    failed_fetches (trace (ClonePath env rel_path ec s).2)
    = S (failed_fetches (trace s)))).
Proof.
  intros Hin Habs.
  assert (env_Stat env (now s) (path_Join env (Dest (job s)) rel_path)
          = StatNotExist) as Hstat.
  { eapply absent_in_stat; [done|].
    eapply absent_in_suffix; [apply ClonePath_trace_stat|done]. }
  clear Habs. unfold_code. run_M. rewrite Hstat. run_M.
  destruct (os_IsNotExist _); run_M;
    (destruct (env_Do _ _ _ _) as [rsp|e]; run_M;
     [destruct (StatusCode rsp =? 200) eqn:E200; run_M;
      [destruct (Body rsp) eqn:EB; run_M|]|]);
    (split; [done|]); rewrite ?E200, ?EB; cbn; eauto.
Qed.

(** The unit of the initial pass on an absent local file. *)
Lemma initial_unit_absent env locals rel_path ec s :
  path_Join env (Dest (job s)) rel_path ∈ locals →
  absent_in locals (trace (initial_unit env rel_path ec s).2) = true →
  (job (initial_unit env rel_path ec s).2
   = add_counter c_Completed 1 (add_counter c_Success 1 (job s)) ∧
   failed_fetches (trace (initial_unit env rel_path ec s).2)
   = failed_fetches (trace s)) ∨
  (job (initial_unit env rel_path ec s).2
   = add_counter c_Completed 1
       (set_retries (rel_path :: retries (job s)) (add_counter c_Error 1 (job s))) ∧
   failed_fetches (trace (initial_unit env rel_path ec s).2)
   = S (failed_fetches (trace s))).
Proof.
  intros Hin Habs.
  pose proof (ClonePath_absent env locals rel_path ec s Hin) as HC.
  unfold initial_unit in *. run_M.
  destruct (ClonePath env rel_path ec s) as [[e|] s1]; run_M;
    destruct (HC Habs) as (Hjob & [[? ?]|[[? ?] ?]]); simplify_eq;
    rewrite Hjob; auto.
Qed.

(** The unit of the retry pass on an absent local file. *)
Lemma retry_unit_absent env locals rel_path s :
  path_Join env (Dest (job s)) rel_path ∈ locals →
  absent_in locals (trace (retry_unit env rel_path s).2) = true →
  (job (retry_unit env rel_path s).2
   = add_counter c_Completed 1 (add_counter c_Error (-1) (job s)) ∧
   failed_fetches (trace (retry_unit env rel_path s).2)
   = failed_fetches (trace s)) ∨
  (job (retry_unit env rel_path s).2
   = add_counter c_Completed 1 (add_counter c_Error 1 (job s)) ∧
   failed_fetches (trace (retry_unit env rel_path s).2)
   = S (failed_fetches (trace s))).
Proof.
  intros Hin Habs.
  pose proof (ClonePath_absent env locals rel_path true s Hin) as HC.
  unfold retry_unit in *. run_M.
  destruct (ClonePath env rel_path true s) as [[e|] s1]; run_M;
    destruct (HC Habs) as (Hjob & [[? ?]|[[? ?] ?]]); simplify_eq;
    rewrite Hjob; auto.
Qed.

(** A turn of the manifest loop on a row whose local file is absent. *)
Lemma loop_body_absent env locals skip_existing force_updates row rel_path s :
  row !! "path" = Some rel_path →
  path_Join env (Dest (job s)) rel_path ∈ locals →
  absent_in locals (trace (loop_body env skip_existing force_updates row s).2) = true →
  (loop_body env skip_existing force_updates row s).1
  = Some (InitialUnit rel_path true) ∧
  job (loop_body env skip_existing force_updates row s).2
  = add_counter c_Scheduled 1 (job s) ∧
  failed_fetches (trace (loop_body env skip_existing force_updates row s).2)
  = failed_fetches (trace s).
Proof.
  intros Hpath Hin Habs.
  assert (env_Stat env (now s) (path_Join env (Dest (job s)) rel_path)
          = StatNotExist) as Hstat.
  { eapply absent_in_stat; [done|].
    eapply absent_in_suffix; [|done].
    unfold loop_body, decide_entry, os_Stat. rewrite Hpath. run_M.
    unfold_code. repeat (case_match; run_M; simplify_eq); run_M; solve_suffix. }
  clear Habs. unfold loop_body, decide_entry, os_Stat. rewrite Hpath. run_M.
  rewrite Hstat. run_M. done.
Qed.

(** A detached write that succeeds changes nothing in the job. *)
Lemma write_goroutine_ok env local contents s :
  stores_ok (trace (write_goroutine env local contents s).2) = true →
  job (write_goroutine env local contents s).2 = job s ∧
  failed_fetches (trace (write_goroutine env local contents s).2)
  = failed_fetches (trace s).
Proof.
  unfold_code. run_M. destruct (env_WriteFile _ _ _ _); run_M; done.
Qed.

Section EmptyDestination.

Context (env : Env) (skip_existing force_updates : bool).
Context (c0 : WOFClone) (paths : list string).

Local Abbreviation locals := (path_Join env (Dest c0) <$> paths).

Lemma initial_inv_step ch s s' :
  sys_step env skip_existing force_updates ch s = Some s' →
  pc s' = InLoop ∨ pc s' = InitialWait →
  absent_in locals (trace (st s')) = true →
  stores_ok (trace (st s')) = true →
  initial_inv c0 paths s → initial_inv c0 paths s'.
Proof.
  intros Hstep Hpc' Habs Hst
    (HSrc & HDst & HM & Hrd & Hpd & Hrt & Hlen & HS & HC & HE & HR & HSu & HSu0 & HSk & Heof).
  destruct ch as [|i|i]; cbn [sys_step] in Hstep.
  - unfold coord_step in Hstep. destruct (pc s).
    + destruct (reader s) as [|[row|e] rest] eqn:Erd; simplify_eq.
      * unfold initial_inv; cbn -[wrap64] in *. repeat split; try done; lia.
      * apply Forall_cons in Hrd as [(row' & p & ? & Hpath & Hp) Hrd]. simplify_eq.
        pose proof (loop_body_absent env locals skip_existing force_updates
                      row' p (st s) Hpath) as HL.
        destruct (loop_body _ _ _ _ _) as [t st'] eqn:ELB. simplify_eq.
        cbn -[wrap64] in *.
        destruct HL as (-> & Hjob & Hff); [|done|].
        { rewrite HDst. by apply list_elem_of_fmap_2. }
        unfold initial_inv; cbn -[wrap64]. rewrite Hjob, Hff. cbn -[wrap64].
        rewrite wrap64_literal by lia.
        repeat split; try done; try lia.
        -- apply Forall_app. split; [done|]. apply Forall_singleton. eauto.
        -- rewrite length_app. cbn [length]. lia.
      * cbn in Hpc'. by destruct Hpc'.
    + destruct (pending s); [|done].
      destruct (budget_gate _); simplify_eq; cbn in Hpc'; by destruct Hpc'.
    + destruct (0 <? _); [destruct (retry_loop_body _) as [[t|] st']|];
        simplify_eq; cbn in Hpc'; by destruct Hpc'.
    + destruct (pending s); simplify_eq. cbn in Hpc'. by destruct Hpc'.
    + done.
  - destruct (pending s !! i) as [t|] eqn:Hi; [|done].
    pose proof (Forall_lookup_1 _ _ _ _ Hpd Hi) as (p & -> & Hp).
    pose proof (initial_unit_absent env locals p true (st s)) as HU.
    cbn [run_task] in Hstep.
    destruct (initial_unit env p true (st s)) as [r st'] eqn:EU. simplify_eq.
    cbn -[wrap64] in *.
    pose proof (delete_Permutation _ _ _ Hi) as Hdel.
    apply Permutation_length in Hdel. cbn [length] in Hdel.
    destruct HU as [[Hjob Hff]|[Hjob Hff]]; [|done| |].
    { rewrite HDst. by apply list_elem_of_fmap_2. }
    + unfold initial_inv; cbn -[wrap64]. rewrite Hjob, Hff. cbn -[wrap64].
      rewrite !wrap64_literal by lia.
      repeat split; try done; try lia. by apply Forall_delete.
    + unfold initial_inv; cbn -[wrap64]. rewrite Hjob, Hff. cbn -[wrap64].
      rewrite !wrap64_literal by lia.
      repeat split; try done; try lia.
      * by apply Forall_delete.
      * by apply Forall_cons.
  - destruct (detached (st s) !! i) as [[local contents]|]; [|done].
    pose proof (write_goroutine_ok env local contents
      (mkState (job (st s)) (trace (st s)) (delete i (detached (st s))))) as HW.
    destruct (write_goroutine _ _ _ _) as [w st']. simplify_eq.
    cbn -[wrap64] in *. destruct (HW Hst) as (Hjob & Hff).
    unfold initial_inv; cbn -[wrap64]. rewrite Hjob, Hff.
    repeat split; try done; lia.
Qed.

Lemma initial_inv_exec script :
  ∀ s s', exec env skip_existing force_updates script s = Some s' →
          pc s' = InLoop ∨ pc s' = InitialWait →
          absent_in locals (trace (st s')) = true →
          stores_ok (trace (st s')) = true →
          initial_inv c0 paths s → initial_inv c0 paths s'.
Proof.
  induction script as [|ch script IH]; intros s s' H Hpc Habs Hst Hinv;
    cbn [exec] in H.
  - by simplify_eq.
  - destruct (sys_step _ _ _ ch s) as [s1|] eqn:Hs; [|done].
    pose proof (exec_trace _ _ _ _ _ _ H) as Hsuf.
    eapply IH; [done..|].
    eapply initial_inv_step; [done| | | |done].
    + by eapply exec_pc_back.
    + by eapply absent_in_suffix.
    + by eapply stores_ok_suffix.
Qed.

(** With two entries in the pool out of ten scheduled, the default ceiling
    lets the retry pass start. *)
Lemma budget_gate_two_of_ten c :
  length (retries c) = 2%nat → Scheduled c = 10 → MaxRetries c = 25%float →
  ∃ pct, budget_gate c = Proceed pct.
Proof.
  unfold budget_gate, retries_Length. intros -> -> ->.
  eexists. vm_compute. reflexivity.
Qed.

Lemma retry_account_inv_step ch s s' :
  sys_step env skip_existing force_updates ch s = Some s' →
  absent_in locals (trace (st s')) = true →
  stores_ok (trace (st s')) = true →
  failed_fetches (trace (st s')) = failed_fetches (trace (st s)) →
  retry_account_inv c0 paths s →
  retry_account_inv c0 paths s'.
Proof.
  intros Hstep Habs Hst Hff
    (HSrc & HDst & HM & HSu & HSk & Hrt & Hpd & Hnr & Hpc).
  destruct ch as [|i|i]; cbn [sys_step] in Hstep.
  - unfold coord_step in Hstep. destruct (pc s) eqn:Epc; [done| | | |done].
    + destruct Hpc as (Hpend & Hnr2 & HS & HC & HE). rewrite Hpend in Hstep.
      destruct (budget_gate_two_of_ten (job (st s))) as [pct Hgate];
        [lia|done..|].
      rewrite Hgate in Hstep. simplify_eq.
      unfold retry_account_inv; cbn -[wrap64]. rewrite Hpend in *.
      cbn -[wrap64] in *. repeat split; try done; lia.
    + destruct (0 <? retries_Length (job (st s))) eqn:Hlen.
      * unfold retry_loop_body in Hstep. unfold retries_Length in Hlen. run_M.
        destruct (retries (job (st s))) as [|p l] eqn:Hrs; [done|].
        run_M. simplify_eq. destruct Hpc as (HS & HC & HC10 & HE).
        apply Forall_cons in Hrt as [Hp Hrt].
        unfold retry_account_inv; cbn -[wrap64] in *.
        rewrite !wrap64_literal by lia. rewrite length_app. cbn [length].
        repeat split; try done; try lia.
        apply Forall_app. split; [done|]. apply Forall_singleton. eauto.
      * simplify_eq. destruct Hpc as (HS & HC & HC10 & HE).
        apply Z.ltb_ge in Hlen. unfold retries_Length in Hlen.
        assert (retries (job (st s)) = []) as Hnil
          by (apply length_zero_iff_nil; lia).
        unfold retry_account_inv; cbn -[wrap64]. rewrite Hnil in *.
        cbn -[wrap64] in *. repeat split; try done; lia.
    + destruct (pending s) eqn:Hpend; [|done]. simplify_eq.
      destruct Hpc as (Hnil & HS & HC & HC10 & HE).
      unfold retry_account_inv; cbn -[wrap64] in *.
      repeat split; try done; lia.
  - destruct (pending s !! i) as [t|] eqn:Hi; [|done].
    pose proof (Forall_lookup_1 _ _ _ _ Hpd Hi) as (p & -> & Hp).
    pose proof (retry_unit_absent env locals p (st s)) as HU.
    cbn [run_task] in Hstep.
    destruct (retry_unit env p (st s)) as [r st'] eqn:EU. simplify_eq.
    cbn -[wrap64] in *.
    pose proof (delete_Permutation _ _ _ Hi) as Hdel.
    apply Permutation_length in Hdel. cbn [length] in Hdel.
    destruct HU as [[Hjob _]|[_ Hff']]; [|done| |lia].
    { rewrite HDst. by apply list_elem_of_fmap_2. }
    unfold retry_account_inv; cbn -[wrap64]. rewrite Hjob. cbn -[wrap64].
    destruct (pc s) eqn:Epc; try done.
    + destruct Hpc as (Hpend & _). by rewrite Hpend in Hi.
    + destruct Hpc as (HS & HC & HC10 & HE).
      rewrite !wrap64_literal by lia.
      repeat split; try done; try lia. by apply Forall_delete.
    + destruct Hpc as (Hnil & HS & HC & HC10 & HE).
      rewrite !wrap64_literal by lia.
      repeat split; try done; try lia. by apply Forall_delete.
    + destruct Hpc as (_ & _ & Hpend & _). by rewrite Hpend in Hi.
  - destruct (detached (st s) !! i) as [[local contents]|]; [|done].
    pose proof (write_goroutine_ok env local contents
      (mkState (job (st s)) (trace (st s)) (delete i (detached (st s))))) as HW.
    destruct (write_goroutine _ _ _ _) as [w st']. simplify_eq.
    cbn -[wrap64] in *. destruct (HW Hst) as (Hjob & _).
    unfold retry_account_inv; cbn -[wrap64]. rewrite Hjob.
    destruct (pc s); repeat split; try done; try lia; tauto.
Qed.

Lemma retry_account_inv_exec script :
  ∀ s s', exec env skip_existing force_updates script s = Some s' →
          absent_in locals (trace (st s')) = true →
          stores_ok (trace (st s')) = true →
          failed_fetches (trace (st s')) = failed_fetches (trace (st s)) →
          retry_account_inv c0 paths s →
  retry_account_inv c0 paths s'.
Proof.
  induction script as [|ch script IH]; intros s s' H Habs Hst Hff Hinv;
    cbn [exec] in H.
  - by simplify_eq.
  - destruct (sys_step _ _ _ ch s) as [s1|] eqn:Hs; [|done].
    pose proof (exec_trace _ _ _ _ _ _ H) as Hsuf.
    pose proof (sys_step_trace _ _ _ _ _ _ Hs) as Hsuf1.
    pose proof (failed_fetches_suffix _ _ Hsuf).
    pose proof (failed_fetches_suffix _ _ Hsuf1).
    eapply IH; [done..|lia|].
    eapply retry_account_inv_step; [done| | | |done].
    + by eapply absent_in_suffix.
    + by eapply stores_ok_suffix.
    + lia.
Qed.

End EmptyDestination.

Lemma manifest_paths_elem rows row p :
  row ∈ rows → row !! "path" = Some p → p ∈ manifest_paths rows.
Proof.
  intros Hin Hp. unfold manifest_paths. apply list_elem_of_omap. eauto.
Qed.

(** C3, as the code has it.  A manifest of ten rows against an empty
    destination, two failed fetches in the initial pass, none in the retry
    pass and no failed write: whatever the interleaving, the job returns nil
    with [Error] at 0 and [Success] at 8.  A unit of the retry pass that
    succeeds takes one from [Error] and adds nothing to [Success]. *)
Theorem C3_retried_successes_only_clear_errors
    env skip_existing force_updates source dest rows script1 script2 s1 s2 r :
  let locals := path_Join env dest <$> manifest_paths rows in
  length rows = 10%nat →
  Forall (λ row, is_Some (row !! "path")) rows →
  exec env skip_existing force_updates script1
    (CloneMetaFile (fresh source dest) (Ok (Row <$> rows))) = Some s1 →
  pc s1 = InitialWait → pending s1 = [] →
  exec env skip_existing force_updates script2 s1 = Some s2 →
  pc s2 = Returned r →
  absent_in locals (trace (st s2)) = true →
  stores_ok (trace (st s2)) = true →
  failed_fetches (trace (st s1)) = 2%nat →
  failed_fetches (trace (st s2)) = 2%nat →
  r = None ∧ Error (job (st s2)) = 0 ∧ Success (job (st s2)) = 8 ∧
  Skipped (job (st s2)) = 0 ∧
  Scheduled (job (st s2)) = 12 ∧ Completed (job (st s2)) = 12.
Proof.
  intros locals Hlen Hrows Hex1 Hpc1 Hpend1 Hex2 Hpc2 Habs Hst Hff1 Hff2.
  pose proof (exec_trace _ _ _ _ _ _ Hex2) as Hsuf.
  assert (initial_inv (NewWOFClone source dest) (manifest_paths rows) s1) as Hinv1.
  { eapply (initial_inv_exec env skip_existing force_updates);
      [exact Hex1|by right| | |].
    - by eapply absent_in_suffix.
    - by eapply stores_ok_suffix.
    - unfold initial_inv; cbn. rewrite length_fmap, Hlen.
      repeat split; try done.
      apply Forall_fmap, Forall_forall. intros row Hin.
      rewrite Forall_forall in Hrows. destruct (Hrows row Hin) as [p Hp].
      exists row, p. repeat split; try done. by eapply manifest_paths_elem. }
  destruct Hinv1
    as (HSrc & HDst & HM & Hrd & Hpd & Hrt & Hlen' & HS & HC & HE & HR & HSu & HSu0 & HSk & Heof).
  rewrite Hff1, Hpend1 in *. cbn in HC, HE, HR, HSu.
  pose proof (Heof Hpc1) as Hrd1.
  assert (retry_account_inv (NewWOFClone source dest) (manifest_paths rows) s2)
    as Hinv2.
  { eapply (retry_account_inv_exec env skip_existing force_updates);
      [exact Hex2|done|done|congruence|].
    unfold retry_account_inv. rewrite Hpc1, Hpend1, Hrd1 in *. cbn in *.
    repeat split; try done; lia. }
  destruct Hinv2 as (_ & _ & _ & HSu2 & HSk2 & _ & _ & _ & Hfin).
  rewrite Hpc2 in Hfin. destruct Hfin as (-> & _ & _ & HS2 & HC2 & HE2).
  done.
Qed.

Lemma C3_retried_successes_witness :
  (None : option error) = None ∧
  Error (job (st ex_flaky_final)) = 0 ∧ Success (job (st ex_flaky_final)) = 8 ∧
  Skipped (job (st ex_flaky_final)) = 0 ∧
  Scheduled (job (st ex_flaky_final)) = 12 ∧
  Completed (job (st ex_flaky_final)) = 12.
Proof.
  apply (C3_retried_successes_only_clear_errors env_flaky false false
           "http://src/" "dest" ex_rows ex_initial_script ex_flaky_retry_script
           ex_flaky_barrier ex_flaky_final None).
  - vm_compute; reflexivity.
  - repeat constructor; by eexists.
  - vm_compute; reflexivity.
  - vm_compute; reflexivity.
  - vm_compute; reflexivity.
  - vm_compute; reflexivity.
  - vm_compute; reflexivity.
  - vm_compute; reflexivity.
  - vm_compute; reflexivity.
  - vm_compute; reflexivity.
  - vm_compute; reflexivity.
Defined.

(** The scenario of C3 on a concrete job: ten rows, an empty destination,
    the fetches of [p3] and [p7] fail in the initial pass and succeed when
    retried.  The job returns nil with [Error] at 0, and [Success] is 8, not
    10. *)
Lemma C3_succeeded_is_eight_not_ten :
  exec env_flaky false false ex_initial_script
    (CloneMetaFile (fresh "http://src/" "dest") (Ok (Row <$> ex_rows)))
  = Some ex_flaky_barrier ∧
  length ex_rows = 10%nat ∧
  pc ex_flaky_barrier = InitialWait ∧ pending ex_flaky_barrier = [] ∧
  exec env_flaky false false ex_flaky_retry_script ex_flaky_barrier
  = Some ex_flaky_final ∧
  pc ex_flaky_final = Returned None ∧
  absent_in (path_Join env_flaky "dest" <$> manifest_paths ex_rows)
    (trace (st ex_flaky_final)) = true ∧
  stores_ok (trace (st ex_flaky_final)) = true ∧
  failed_fetches (trace (st ex_flaky_barrier)) = 2%nat ∧
  failed_fetches (trace (st ex_flaky_final)) = 2%nat ∧
  length (get_requests (trace (st ex_flaky_final))) = 12%nat ∧
  Error (job (st ex_flaky_final)) = 0 ∧
  Success (job (st ex_flaky_final)) = 8 ∧
  Success (job (st ex_flaky_final)) ≠ 10.
Proof.
  split_and!; try (vm_compute; reflexivity). by vm_compute.
Qed.

(** ** The sum of the counters at the barrier *)

(** C1 fails on the code.  A manifest that lists the same path twice: both
    rows are handed to the pool while the file is absent; the first unit
    fetches it and its write lands; the second unit then finds the file, in
    [ClonePath] with [ensure_changes] set, equal to the remote one, so that
    [ClonePath] counts it as skipped and the unit counts it as a success.  At
    the barrier [Completed] is 2 and the three other counters add up to 3. *)
Theorem C1_duplicate_path_breaks_the_sum :
  ∃ s,
    exec env_dup false false [Coord; Coord; Coord; Run 0; Write 0; Run 0]%nat
      (CloneMetaFile (fresh "http://src/" "dest") (Ok [ex_row "a"; ex_row "a"]))
    = Some s ∧
    pc s = InitialWait ∧ pending s = [] ∧ detached (st s) = [] ∧
    Scheduled (job (st s)) = 2 ∧ Completed (job (st s)) = 2 ∧
    Success (job (st s)) = 2 ∧ Error (job (st s)) = 0 ∧
    Skipped (job (st s)) = 1 ∧
    Completed (job (st s))
    ≠ Success (job (st s)) + Error (job (st s)) + Skipped (job (st s)).
Proof.
  eexists. split; [vm_compute; reflexivity|]. cbn. split_and!; done.
Qed.

(** * Further properties of the code *)

(** ** [strings.Replace] on the entity tag *)

Lemma strings_Replace_quote_app s1 s2 :
  strings_Replace_quote (s1 +:+ s2)
  = strings_Replace_quote s1 +:+ strings_Replace_quote s2.
Proof.
  induction s1 as [|a s1 IH]; [done|].
  change (String a s1 +:+ s2) with (String a (s1 +:+ s2)). cbn.
  destruct (Ascii.eqb a quote); [done|].
  change (String a (strings_Replace_quote s1) +:+ strings_Replace_quote s2)
    with (String a (strings_Replace_quote s1 +:+ strings_Replace_quote s2)).
  by rewrite IH.
Qed.

Lemma strings_Replace_quote_id s :
  contains_quote s = false → strings_Replace_quote s = s.
Proof.
  induction s as [|a s IH]; [done|]. cbn.
  destruct (Ascii.eqb a quote); cbn; [done|]. intros H. by rewrite IH.
Qed.

Lemma strings_Replace_quote_clean s :
  contains_quote (strings_Replace_quote s) = false.
Proof.
  induction s as [|a s IH]; [done|]. cbn.
  destruct (Ascii.eqb a quote) eqn:E; cbn; [done|]. by rewrite E.
Qed.

(** ** What [Process] and [ClonePath] do, whatever the world answers *)

(** X1.  [Process] leaves the job alone and issues exactly one GET request,
    for its remote, and no probe; it asks for the directory of the local file
    exactly when [os.Stat] says that it does not exist.  It returns nil exactly
    when the request was answered with 200 and a readable body, and only then
    does it start a write, of that body to the local file; on an error
    nothing is written and the fetch is a failed one. *)
Theorem Process_writes_only_what_it_fetched env remote local s :
  let r := (Process env remote local s).1 in
  let s' := (Process env remote local s).2 in
  let dir := path_Dir env local in
  job s' = job s ∧
  get_requests (trace s') = remote :: get_requests (trace s) ∧
  probe_requests (trace s') = probe_requests (trace s) ∧
  mkdirs (trace s')
  = (if os_IsNotExist (env_Stat env (now s) dir) then [dir] else [])
    ++ mkdirs (trace s) ∧
  match r with
  | None =>
      ∃ rsp contents,
        head (trace s') = Some (EvDo "GET" remote (Ok rsp)) ∧
        StatusCode rsp = 200 ∧ Body rsp = Ok contents ∧
        detached s' = detached s ++ [(local, contents)] ∧
        failed_fetches (trace s') = failed_fetches (trace s)
  | Some _ =>
      detached s' = detached s ∧
      failed_fetches (trace s') = S (failed_fetches (trace s))
  end.
Proof.
  unfold_code. run_M.
  destruct (os_IsNotExist _); run_M;
    (destruct (env_Do _ _ _ _) as [rsp|e]; run_M;
     [destruct (StatusCode rsp =? 200) eqn:E; run_M;
      [destruct (Body rsp) as [contents|e] eqn:EB; run_M|]|]);
    rewrite ?E, ?EB; cbn; split_and!; try done;
    exists rsp, contents; split_and!; try done; lia.
Qed.

(** X2.  A call of [ClonePath] ends in one of three ways, whatever the world
    answers.  It skips: only with [ensure_changes], after one probe and
    without a GET request, it counts the entry in [Skipped] and returns nil.
    It fetches: one GET request for the remote of the entry, a write of the
    local file is started, the job is unchanged and the result is nil.  Or it
    fails: one GET request, which failed, nothing is written, the job is
    unchanged and the result is an error.  An error of [os.Stat], of the hash
    or of the probe is never the result. *)
Theorem ClonePath_skips_fetches_or_fails env rel_path ensure_changes s :
  let remote := Source (job s) +:+ rel_path in
  let local := path_Join env (Dest (job s)) rel_path in
  let r := (ClonePath env rel_path ensure_changes s).1 in
  let s' := (ClonePath env rel_path ensure_changes s).2 in
  (ensure_changes = true ∧ r = None ∧
   job s' = add_counter c_Skipped 1 (job s) ∧
   probe_requests (trace s') = remote :: probe_requests (trace s) ∧
   get_requests (trace s') = get_requests (trace s) ∧
   detached s' = detached s ∧
   failed_fetches (trace s') = failed_fetches (trace s))
  ∨ (r = None ∧ job s' = job s ∧
     get_requests (trace s') = remote :: get_requests (trace s) ∧
     (∃ contents, detached s' = detached s ++ [(local, contents)]) ∧
     failed_fetches (trace s') = failed_fetches (trace s))
  ∨ (is_Some r ∧ job s' = job s ∧
     get_requests (trace s') = remote :: get_requests (trace s) ∧
     detached s' = detached s ∧
     failed_fetches (trace s') = S (failed_fetches (trace s))).
Proof.
  cbv zeta. unfold_code. run_M.
  repeat (case_match; run_M; simplify_eq);
    first [ left; split_and!; first [done | lia | ensured]
          | right; left; split_and!; eauto; (done || lia)
          | right; right; split_and!; eauto; (done || lia) ].
Qed.

(** X3.  [ClonePath] goes without a GET request only when it was asked to
    ensure changes, the local file is there, its hash could be computed, the
    probe was answered with 200 and the two fingerprints are equal.  A
    failure of the hash or of the probe therefore always ends in a fetch. *)
Theorem ClonePath_fetches_unless_fingerprints_agree env rel_path ensure_changes s :
  let remote := Source (job s) +:+ rel_path in
  let local := path_Join env (Dest (job s)) rel_path in
  get_requests (trace (ClonePath env rel_path ensure_changes s).2)
  = get_requests (trace s) →
  ensure_changes = true ∧
  os_IsNotExist (env_Stat env (now s) local) = false ∧
  ∃ local_hash rsp,
    env_HashFile env (S (now s)) local = Ok local_hash ∧
    env_Do env (S (S (now s))) "HEAD" remote = Ok rsp ∧
    StatusCode rsp = 200 ∧
    local_hash = remote_fingerprint rsp.
Proof.
  cbv zeta. unfold remote_fingerprint. unfold_code. run_M.
  repeat (case_match; run_M; simplify_eq);
    intros Hget;
    try (apply (f_equal length) in Hget; cbn in Hget; lia).
  all: split; [ensured|].
  all: split; [by destruct (os_IsNotExist _)|].
  all: eexists _, _; split_and!; eauto.
  - by apply Z.eqb_eq, negb_false_iff.
  - by apply String.eqb_eq.
Qed.

Lemma ClonePath_fetches_unless_witness :
  true = true ∧
  os_IsNotExist (env_Stat env_same 0 (ex_join "dest" "a")) = false ∧
  ∃ local_hash rsp,
    env_HashFile env_same 1 (ex_join "dest" "a") = Ok local_hash ∧
    env_Do env_same 2 "HEAD" "http://src/a" = Ok rsp ∧
    StatusCode rsp = 200 ∧
    local_hash = remote_fingerprint rsp.
Proof.
  apply (ClonePath_fetches_unless_fingerprints_agree env_same "a" true
           (fresh "http://src/" "dest")).
  reflexivity.
Defined.

(** X4.  A unit of the initial pass that was dispatched for an existing
    local copy (its [ensure_changes] is false) fetches without looking
    again: no probe, one GET request, and [Skipped] is not touched, whatever
    the world answers. *)
Theorem initial_unit_without_ensure_changes_never_probes env rel_path s :
  let s' := (initial_unit env rel_path false s).2 in
  probe_requests (trace s') = probe_requests (trace s) ∧
  get_requests (trace s')
  = (Source (job s) +:+ rel_path) :: get_requests (trace s) ∧
  Skipped (job s') = Skipped (job s).
Proof.
  cbv zeta. unfold_code. run_M.
  rewrite andb_false_r. run_M.
  repeat (case_match; run_M; simplify_eq); done.
Qed.

(** ** The comparison of the fingerprints *)

(** X5.  The double quotes that servers put around an entity tag do not
    count: against a 200 probe whose [Etag] is a hash [h] between double
    quotes, [HasHashChanged] answers "unchanged" exactly when the local hash
    is [h], with no error.  The hash itself has no double quote. *)
Theorem HasHashChanged_compares_with_the_unquoted_etag
    env local_hash remote s rsp h :
  env_Do env (now s) "HEAD" remote = Ok rsp →
  StatusCode rsp = 200 →
  Header rsp !! "Etag" = Some (String quote (h +:+ String quote EmptyString)) →
  contains_quote h = false →
  (HasHashChanged env local_hash remote s).1
  = (negb (String.eqb local_hash h), None).
Proof.
  intros HDo H200 Htag Hh. unfold_code. run_M. rewrite HDo. run_M.
  rewrite H200. run_M. unfold Header_Get. rewrite Htag. cbn.
  rewrite strings_Replace_quote_app, (strings_Replace_quote_id h Hh). cbn.
  rewrite !Ascii.eqb_refl.
  replace (h +:+ EmptyString) with h.
  - by destruct (String.eqb local_hash h).
  - clear. induction h as [|a h IH]; [done|].
    change (String a h +:+ EmptyString) with (String a (h +:+ EmptyString)).
    by rewrite <- IH.
Qed.

Lemma HasHashChanged_unquoted_etag_witness :
  (HasHashChanged env_same "h" "http://src/a" (fresh "http://src/" "dest")).1
  = (negb (String.eqb "h" "h"), None).
Proof.
  apply (HasHashChanged_compares_with_the_unquoted_etag env_same "h"
           "http://src/a" (fresh "http://src/" "dest") (ex_rsp "h") "h");
    reflexivity.
Defined.

(** X6.  A local hash that holds a double quote never matches: the quotes
    are removed from the entity tag only, so [HasHashChanged] answers
    "changed" whatever the server sends. *)
Theorem HasHashChanged_quoted_hash_never_matches env local_hash remote s :
  contains_quote local_hash = true →
  (HasHashChanged env local_hash remote s).1.1 = true.
Proof.
  intros Hq. unfold_code. run_M.
  repeat (case_match; run_M; simplify_eq); try done.
  match goal with H : String.eqb _ _ = true |- _ => apply String.eqb_eq in H end.
  subst local_hash. by rewrite strings_Replace_quote_clean in Hq.
Qed.

Lemma HasHashChanged_quoted_hash_witness :
  (HasHashChanged env_same (ex_etag "h") "http://src/a"
     (fresh "http://src/" "dest")).1.1 = true.
Proof.
  apply (HasHashChanged_quoted_hash_never_matches env_same (ex_etag "h")).
  reflexivity.
Defined.

(** X7.  A 200 probe that carries no [Etag] header is compared as the empty
    validator: [HasHashChanged] answers "unchanged" exactly when the local
    hash is the empty string, and returns no error. *)
Theorem HasHashChanged_without_etag env local_hash remote s rsp :
  env_Do env (now s) "HEAD" remote = Ok rsp →
  StatusCode rsp = 200 →
  Header rsp !! "Etag" = None →
  (HasHashChanged env local_hash remote s).1
  = (negb (String.eqb local_hash EmptyString), None).
Proof.
  intros HDo H200 Htag. unfold_code. run_M. rewrite HDo. run_M.
  rewrite H200. run_M. unfold Header_Get. rewrite Htag. cbn.
  by destruct (String.eqb local_hash EmptyString).
Qed.

Lemma HasHashChanged_without_etag_witness :
  (HasHashChanged env_no_etag "h" "http://src/a" (fresh "http://src/" "dest")).1
  = (negb (String.eqb "h" EmptyString), None).
Proof.
  apply (HasHashChanged_without_etag env_no_etag "h" "http://src/a"
           (fresh "http://src/" "dest") (mkResponse 200 "200 OK" ∅ (Ok [])));
    reflexivity.
Defined.

(** ** The decision of the manifest loop *)

(** X8.  For an entry whose local copy is there, the two toggles decide
    without asking the remote: with [force_updates] the entry is fetched,
    whatever [skip_existing] says, and its unit will not look for changes;
    with [skip_existing] alone the entry is skipped.  In both cases the only
    call to the outside is the [os.Stat] of the local file. *)
Theorem toggles_decide_an_existing_copy env skip_existing row rel_path s :
  let local := path_Join env (Dest (job s)) rel_path in
  let s1 := mkState (job s) (EvStat local (env_Stat env (now s) local) :: trace s)
              (detached s) in
  os_IsNotExist (env_Stat env (now s) local) = false →
  decide_entry env skip_existing true row rel_path s = (D_Fetch false, s1) ∧
  decide_entry env true false row rel_path s = (D_Skip, s1).
Proof.
  intros local s1 Hstat. subst local s1. unfold decide_entry, os_Stat. run_M.
  rewrite Hstat. done.
Qed.

Lemma toggles_decide_witness :
  decide_entry env_down true true ∅ "a" (fresh "http://src/" "dest")
  = (D_Fetch false,
     mkState (NewWOFClone "http://src/" "dest")
       [EvStat (ex_join "dest" "a") StatOk] []) ∧
  decide_entry env_down true false ∅ "a" (fresh "http://src/" "dest")
  = (D_Skip,
     mkState (NewWOFClone "http://src/" "dest")
       [EvStat (ex_join "dest" "a") StatOk] []).
Proof.
  apply (toggles_decide_an_existing_copy env_down true ∅ "a"
           (fresh "http://src/" "dest")).
  reflexivity.
Defined.

(** X9.  When the job does not skip what exists, the manifest loop skips an
    entry only if updates are not forced, the local copy is there, and both
    fingerprints were obtained and are equal.  An entry whose hash or probe
    fails is therefore never skipped. *)
Theorem loop_skips_only_on_equal_fingerprints env force_updates row rel_path s :
  let remote := Source (job s) +:+ rel_path in
  let local := path_Join env (Dest (job s)) rel_path in
  (decide_entry env false force_updates row rel_path s).1 = D_Skip →
  force_updates = false ∧
  os_IsNotExist (env_Stat env (now s) local) = false ∧
  fingerprints_equal env row local remote (S (now s)).
Proof.
  cbv zeta. unfold fingerprints_equal, remote_fingerprint. unfold_code. run_M.
  destruct (os_IsNotExist _); run_M; [done|].
  destruct force_updates; run_M; [done|].
  destruct (row !! "file_hash") as [file_hash|]; run_M.
  - destruct (env_Do _ _ _ _) as [rsp|e] eqn:HDo; run_M; [|done].
    destruct (StatusCode rsp =? 200) eqn:H200; run_M; [|done].
    destruct (String.eqb _ _) eqn:Heq; run_M; [|done].
    intros _. split_and!; try done. exists rsp.
    split_and!; [done|by apply Z.eqb_eq|by apply String.eqb_eq].
  - destruct (env_HashFile _ _ _) as [local_hash|e] eqn:Hh; run_M; [|done].
    destruct (env_Do _ _ _ _) as [rsp|e] eqn:HDo; run_M; [|done].
    destruct (StatusCode rsp =? 200) eqn:H200; run_M; [|done].
    destruct (String.eqb _ _) eqn:Heq; run_M; [|done].
    intros _. split_and!; try done. exists local_hash, rsp.
    split_and!; [done|done|by apply Z.eqb_eq|by apply String.eqb_eq].
Qed.

Lemma loop_skips_only_witness :
  false = false ∧
  os_IsNotExist (env_Stat env_same 0 (ex_join "dest" "a")) = false ∧
  fingerprints_equal env_same {[ "path" := "a" ]} (ex_join "dest" "a")
    "http://src/a" 1.
Proof.
  apply (loop_skips_only_on_equal_fingerprints env_same false
           {[ "path" := "a" ]} "a" (fresh "http://src/" "dest")).
  reflexivity.
Defined.

(** ** A manifest that cannot be read *)

(** X10.  When the manifest cannot be opened, [CloneMetaFile] returns the
    error of the reader and that is all: on a job with no write in flight
    nothing can move any more, so no entry is read, scheduled or fetched and
    the job is as it was. *)
Theorem unreadable_manifest_processes_nothing
    env skip_existing force_updates s0 e script s :
  detached s0 = [] →
  exec env skip_existing force_updates script (CloneMetaFile s0 (Fail e)) = Some s →
  script = [] ∧ s = mkSys s0 [] [] [] (Returned (Some e)).
Proof.
  intros Hdet Hex. destruct script as [|[|i|i] script]; cbn in Hex.
  - by simplify_eq.
  - done.
  - done.
  - by rewrite Hdet in Hex.
Qed.

Lemma unreadable_manifest_witness :
  @nil Choice = [] ∧
  CloneMetaFile (fresh "http://src/" "dest") (Fail "no such file")
  = mkSys (fresh "http://src/" "dest") [] [] [] (Returned (Some "no such file")).
Proof.
  apply (unreadable_manifest_processes_nothing env_same false false
           (fresh "http://src/" "dest") "no such file" []
           (CloneMetaFile (fresh "http://src/" "dest") (Fail "no such file")));
    reflexivity.
Defined.

(** Once [CloneMetaFile] has returned while units of the initial pass were
    in flight, those units can still run, but nothing is read, scheduled or
    popped any more. *)
Lemma returned_early env skip_existing force_updates script :
  ∀ s s' r,
    pc s = Returned r → Forall is_initial (pending s) →
    exec env skip_existing force_updates script s = Some s' →
    pc s' = Returned r ∧ reader s' = reader s ∧
    Scheduled (job (st s')) = Scheduled (job (st s)) ∧
    Forall is_initial (pending s') ∧
    retries (job (st s)) `suffix_of` retries (job (st s')) ∧
    (length (pending s') + length (finished s')
     = length (pending s) + length (finished s))%nat.
Proof.
  induction script as [|ch script IH]; intros s s' r Hpc Hini Hex.
  - cbn in Hex. by simplify_eq.
  - cbn [exec] in Hex. destruct ch as [|i|i]; cbn [sys_step] in Hex.
    + unfold coord_step in Hex. by rewrite Hpc in Hex.
    + destruct (pending s !! i) as [t|] eqn:Hi; [|done].
      pose proof (run_task_frame env t (st s)) as (Hr & Hs & _).
      assert (is_initial t) as Ht by (eapply Forall_lookup_1; eauto).
      destruct (run_task env t (st s)) as [res st'].
      apply IH with (r := r) in Hex; [|done|by apply Forall_delete].
      cbn in *. destruct Hex as (? & ? & ? & ? & Hsuf & Hlen).
      split_and!; try congruence.
      * etrans; [|exact Hsuf]. rewrite Hr.
        destruct t as [p ec|p]; [|done].
        destruct res; [by apply suffix_cons_r|done].
      * rewrite Hlen, length_delete by eauto.
        apply lookup_lt_Some in Hi. lia.
    + destruct (detached (st s) !! i) as [[local contents]|]; [|done].
      pose proof (write_goroutine_frame env local contents
        (mkState (job (st s)) (trace (st s)) (delete i (detached (st s)))))
        as (Hr & Hs & _).
      destruct (write_goroutine _ _ _ _) as [w st'].
      apply IH with (r := r) in Hex; [|done..].
      cbn in *. destruct Hex as (? & ? & ? & ? & Hsuf & Hlen).
      split_and!; first [congruence | by rewrite <- Hr].
Qed.

(** X11.  An error of the reader in the middle of the manifest makes
    [CloneMetaFile] return that error at once: it does not wait for the units
    in flight and [ProcessRetries] is not called.  Afterwards those units can
    still run and push their paths, but the rows after the error are never
    read, nothing more is scheduled, and no failed path is ever retried. *)
Theorem read_error_returns_without_waiting
    env skip_existing force_updates s e rest :
  pc s = InLoop → reader s = ReadErr e :: rest →
  Forall is_initial (pending s) →
  ∃ s1,
    coord_step env skip_existing force_updates s = Some s1 ∧
    pc s1 = Returned (Some e) ∧ st s1 = st s ∧
    pending s1 = pending s ∧ finished s1 = finished s ∧
    ∀ script s2,
      exec env skip_existing force_updates script s1 = Some s2 →
      pc s2 = Returned (Some e) ∧ reader s2 = rest ∧
      Scheduled (job (st s2)) = Scheduled (job (st s)) ∧
      Forall is_initial (pending s2) ∧
      retries (job (st s)) `suffix_of` retries (job (st s2)) ∧
      (length (pending s2) + length (finished s2)
       = length (pending s) + length (finished s))%nat.
Proof.
  intros Hpc Hrd Hini. unfold coord_step. rewrite Hpc, Hrd.
  eexists. split; [done|]. split_and!; try done.
  intros script s2 Hex.
  by apply returned_early with (r := Some e) in Hex.
Qed.

Lemma read_error_witness :
  ∃ s1,
    coord_step env_down false false ex_torn = Some s1 ∧
    pc s1 = Returned (Some "unexpected EOF") ∧ st s1 = st ex_torn ∧
    pending s1 = pending ex_torn ∧ finished s1 = finished ex_torn ∧
    ∀ script s2,
      exec env_down false false script s1 = Some s2 →
      pc s2 = Returned (Some "unexpected EOF") ∧ reader s2 = [ex_row "b"] ∧
      Scheduled (job (st s2)) = Scheduled (job (st ex_torn)) ∧
      Forall is_initial (pending s2) ∧
      retries (job (st ex_torn)) `suffix_of` retries (job (st s2)) ∧
      (length (pending s2) + length (finished s2)
       = length (pending ex_torn) + length (finished ex_torn))%nat.
Proof.
  apply (read_error_returns_without_waiting env_down false false ex_torn
           "unexpected EOF" [ex_row "b"]).
  - reflexivity.
  - reflexivity.
  - vm_compute. repeat constructor.
Defined.

(** ** Every entry is scheduled once and completed once *)

Lemma decide_entry_detached env skip_existing force_updates row rel_path s :
  detached (decide_entry env skip_existing force_updates row rel_path s).2
  = detached s.
Proof.
  unfold_code. run_M.
  repeat (case_match; run_M; simplify_eq; auto).
Qed.

(** What a turn of the manifest loop does to the job: nothing for a row
    without a path; for a row with a path, either the three counters of a
    skip, or one more [Scheduled] and a unit for that path. *)
Lemma loop_body_counts env skip_existing force_updates row s :
  let t := (loop_body env skip_existing force_updates row s).1 in
  let s' := (loop_body env skip_existing force_updates row s).2 in
  detached s' = detached s ∧
  match row !! "path" with
  | None => t = None ∧ job s' = job s
  | Some rel_path =>
      (t = None ∧
       job s' = add_counter c_Skipped 1
                  (add_counter c_Completed 1 (add_counter c_Scheduled 1 (job s))))
      ∨ (∃ ec, t = Some (InitialUnit rel_path ec) ∧
               job s' = add_counter c_Scheduled 1 (job s))
  end.
Proof.
  intros t s'. subst t s'. unfold loop_body.
  destruct (row !! "path") as [rel_path|]; run_M; [|done].
  pose proof (decide_entry_job env skip_existing force_updates row rel_path s) as HJ.
  pose proof (decide_entry_detached env skip_existing force_updates row rel_path s) as HD.
  destruct (decide_entry _ _ _ _ _ _) as [[|ec] s1]; run_M; rewrite HJ; eauto 10.
Qed.

Lemma wrap64_add_r a b : wrap64 (a + wrap64 b) = wrap64 (a + b).
Proof. by rewrite Z.add_comm, wrap64_add_l, Z.add_comm. Qed.

Lemma completed_inv_step env skip_existing force_updates s0 items ch s s' :
  sys_step env skip_existing force_updates ch s = Some s' →
  completed_inv s0 items s → completed_inv s0 items s'.
Proof.
  intros Hstep Hinv Hpc'. destruct ch as [|i|i]; cbn [sys_step] in Hstep.
  - unfold coord_step in Hstep. destruct (pc s) eqn:Hpc.
    + destruct Hinv as (k & HS & HC & Hk & Hrd'); [by left|].
      destruct (reader s) as [|[row|e] rest] eqn:Hrd; simplify_eq.
      * exists k. cbn in *. split_and!; auto.
      * pose proof (loop_body_counts env skip_existing force_updates row (st s))
          as (_ & Hcnt).
        destruct (loop_body _ _ _ _ _) as [t st']. simplify_eq. cbn in *.
        destruct (row !! "path") as [p|] eqn:Hpath.
        -- exists (S k).
           destruct Hcnt as [[-> ->]|(ec & -> & ->)]; cbn -[wrap64];
             rewrite HS, ?HC, !wrap64_add_l, ?length_app, ?app_nil_r;
             cbn -[wrap64]; split_and!; try (f_equal; lia); done.
        -- destruct Hcnt as [-> ->]. exists k. rewrite app_nil_r.
           split_and!; done.
      * cbn in Hpc'. by destruct Hpc'.
    + destruct (pending s); [|done].
      destruct (budget_gate _); simplify_eq; cbn in Hpc'; by destruct Hpc'.
    + destruct (0 <? _).
      * destruct (retry_loop_body _) as [[t|] st']; simplify_eq;
          cbn in Hpc'; by destruct Hpc'.
      * simplify_eq. cbn in Hpc'. by destruct Hpc'.
    + destruct (pending s); simplify_eq. cbn in Hpc'. by destruct Hpc'.
    + done.
  - destruct (pending s !! i) as [t|] eqn:Hi; [|done].
    pose proof (run_task_frame env t (st s)) as (_ & HS' & HC' & _).
    destruct (run_task _ _ _) as [r st']. simplify_eq. cbn in *.
    destruct Hinv as (k & HS & HC & Hk & Hrd'); [done|].
    exists k. rewrite HS', HC', HC, wrap64_add_l.
    split_and!; [done| |done|done].
    rewrite length_delete by eauto. apply lookup_lt_Some in Hi.
    f_equal. lia.
  - destruct (detached (st s) !! i) as [[local contents]|]; [|done].
    pose proof (write_goroutine_frame env local contents
      (mkState (job (st s)) (trace (st s)) (delete i (detached (st s)))))
      as (_ & HS' & HC' & _).
    destruct (write_goroutine _ _ _ _) as [w st']. simplify_eq. cbn in *.
    destruct Hinv as (k & HS & HC & Hk & Hrd'); [done|].
    exists k. rewrite HS', HC'. done.
Qed.

Lemma completed_inv_exec env skip_existing force_updates s0 items script :
  ∀ s s', exec env skip_existing force_updates script s = Some s' →
          completed_inv s0 items s → completed_inv s0 items s'.
Proof.
  induction script as [|ch script IH]; intros s s' H Hinv; cbn [exec] in H.
  - by simplify_eq.
  - destruct (sys_step _ _ _ ch s) as [s1|] eqn:Hs; [|done].
    eapply IH; [done|]. by eapply completed_inv_step.
Qed.

(** X12.  In every run of [CloneMetaFile], when the barrier of the initial
    pass can be passed (the manifest is read and no unit is in flight),
    [Scheduled] and [Completed] have both grown by the number of rows that
    have a path: every such row, skipped or handed to the pool, was scheduled
    once and completed once, and a row without a path was not counted. *)
Theorem every_entry_is_scheduled_and_completed_once
    env skip_existing force_updates s0 items script s :
  int64_range (Scheduled (job s0)) → int64_range (Completed (job s0)) →
  exec env skip_existing force_updates script (CloneMetaFile s0 (Ok items))
  = Some s →
  pc s = InitialWait → pending s = [] →
  reader s = [] ∧
  Scheduled (job (st s))
  = wrap64 (Scheduled (job s0) + Z.of_nat (rows_with_path items)) ∧
  Completed (job (st s))
  = wrap64 (Completed (job s0) + Z.of_nat (rows_with_path items)).
Proof.
  intros HS0 HC0 Hex Hpc Hpend.
  apply (completed_inv_exec _ _ _ s0 items) in Hex.
  - destruct Hex as (k & HS & HC & Hk & Hrd); [by right|].
    specialize (Hrd Hpc). rewrite Hrd in Hk. cbn in Hk.
    rewrite Hpend in HC. cbn in HC.
    assert (k = rows_with_path items) as -> by lia.
    split_and!; [done|done|]. rewrite HC. f_equal. lia.
  - intros _. exists 0%nat. cbn.
    rewrite !Z.add_0_r, Z.sub_0_r, !wrap64_small by done. done.
Qed.

Lemma every_entry_once_witness :
  reader ex_flaky_barrier = [] ∧
  Scheduled (job (st ex_flaky_barrier))
  = wrap64 (Scheduled (job (fresh "http://src/" "dest"))
            + Z.of_nat (rows_with_path (Row <$> ex_rows))) ∧
  Completed (job (st ex_flaky_barrier))
  = wrap64 (Completed (job (fresh "http://src/" "dest"))
            + Z.of_nat (rows_with_path (Row <$> ex_rows))).
Proof.
  apply (every_entry_is_scheduled_and_completed_once env_flaky false false
           (fresh "http://src/" "dest") (Row <$> ex_rows) ex_initial_script
           ex_flaky_barrier).
  - unfold int64_range. simpl. lia.
  - unfold int64_range. simpl. lia.
  - vm_compute. reflexivity.
  - vm_compute. reflexivity.
  - vm_compute. reflexivity.
Defined.

(** ** The accounts of the initial pass *)

(** The three ways of [ClonePath], as the job and the writes in flight see
    them; it never writes by itself. *)
Lemma ClonePath_effect env rel_path ensure_changes s :
  let r := (ClonePath env rel_path ensure_changes s).1 in
  let s' := (ClonePath env rel_path ensure_changes s).2 in
  failed_stores (trace s') = failed_stores (trace s) ∧
  ((r = None ∧ job s' = add_counter c_Skipped 1 (job s) ∧
    detached s' = detached s)
   ∨ (r = None ∧ job s' = job s ∧ ∃ lc, detached s' = detached s ++ [lc])
   ∨ (is_Some r ∧ job s' = job s ∧ detached s' = detached s)).
Proof.
  cbv zeta. unfold_code. run_M.
  repeat (case_match; run_M; simplify_eq); split; try done; eauto 10.
Qed.


Lemma write_goroutine_effect env local contents s :
  let s' := (write_goroutine env local contents s).2 in
  detached s' = detached s ∧
  ((job s' = job s ∧ failed_stores (trace s') = failed_stores (trace s))
   ∨ (job s' = add_counter c_Error 1 (add_counter c_Success (-1) (job s)) ∧
      failed_stores (trace s') = S (failed_stores (trace s)))).
Proof.
  cbv zeta. unfold_code. run_M. case_match; run_M; auto.
Qed.






(** ** Failed writes and the budget *)

(** X14.  The budget of [ProcessRetries] only sees the units whose
    [ClonePath] returned an error.  When a job starts with an empty pool and
    no unit of its initial pass returned an error, [CloneMetaFile] returns
    nil at the barrier without a retry pass, whatever [Error] counts: writes
    that failed are neither retried nor reported. *)
Theorem failed_writes_are_not_retried
    env skip_existing force_updates s0 items script s :
  retries (job s0) = [] →
  exec env skip_existing force_updates script (CloneMetaFile s0 (Ok items))
  = Some s →
  pc s = InitialWait → pending s = [] →
  failed_paths (finished s) = [] →
  coord_step env skip_existing force_updates s
  = Some (mkSys (st s) (reader s) [] (finished s) (Returned None)).
Proof.
  intros Hr0 Hex Hpc Hpend Hfail.
  apply (pool_inv_exec _ _ _ s0) in Hex.
  - destruct Hex as [_ Hpool]; [by right|].
    rewrite Hfail, Hr0 in Hpool. cbn in Hpool.
    unfold coord_step. by rewrite Hpc, Hpend, (budget_gate_empty _ Hpool).
  - intros _. cbn. by rewrite Hr0.
Qed.

Lemma failed_writes_witness :
  coord_step env_disk_full false false ex_full_barrier
  = Some (mkSys (st ex_full_barrier) (reader ex_full_barrier) []
            (finished ex_full_barrier) (Returned None)).
Proof.
  apply (failed_writes_are_not_retried env_disk_full false false
           (fresh "http://src/" "dest") [ex_row "a"]
           [Coord; Coord; Run 0; Write 0]%nat ex_full_barrier).
  - reflexivity.
  - vm_compute. reflexivity.
  - vm_compute. reflexivity.
  - vm_compute. reflexivity.
  - vm_compute. reflexivity.
Defined.

(** ** The accounts of the retry pass *)








(** ** A destination that is up to date *)

(** A turn of the manifest loop on a settled row submits nothing and issues
    no GET request; a row with a path is counted as scheduled, completed and
    skipped. *)
Lemma loop_body_settled env skip_existing c0 row s :
  settled env skip_existing c0 row →
  Source (job s) = Source c0 → Dest (job s) = Dest c0 →
  let r := loop_body env skip_existing false row s in
  r.1 = None ∧ detached r.2 = detached s ∧
  get_requests (trace r.2) = get_requests (trace s) ∧
  job r.2 = match row !! "path" with
            | Some _ => add_counter c_Skipped 1
                          (add_counter c_Completed 1
                             (add_counter c_Scheduled 1 (job s)))
            | None => job s
            end.
Proof.
  intros Hset HSrc HDst. cbv zeta. unfold settled in Hset.
  unfold loop_body, decide_entry, os_Stat.
  destruct (row !! "path") as [rel_path|]; run_M; [|done].
  destruct (Hset rel_path eq_refl (length (trace s))) as [Hstat Hfp].
  rewrite <- HSrc, <- HDst in *. rewrite Hstat. run_M.
  destruct skip_existing; run_M; [done|].
  destruct Hfp as [?|Hfp]; [done|]. unfold fingerprints_equal in Hfp.
  destruct (row !! "file_hash") as [file_hash|].
  - destruct Hfp as (rsp & HDo & H200 & Heq).
    erewrite HasHashChanged_same; [|run_M; eauto..]. run_M. done.
  - destruct Hfp as (local_hash & rsp & Hh & HDo & H200 & Heq).
    erewrite HasChanged_same; [|run_M; eauto..]. run_M. done.
Qed.

Lemma settled_inv_step env skip_existing c0 n ch s s' :
  sys_step env skip_existing false ch s = Some s' →
  settled_inv env skip_existing c0 n s → settled_inv env skip_existing c0 n s'.
Proof.
  unfold settled_inv.
  intros Hstep (Hpend & Hfin & Hdet & Hget & HSrc & HDst & Hret & HS & HE
                & k & rows & Hrd & Hset & Hk & HSch & HCo & HSk & Hpc).
  destruct ch as [|i|i]; cbn [sys_step] in Hstep.
  - unfold coord_step in Hstep. destruct (pc s) eqn:Hpcs; try done.
    + rewrite Hrd in Hstep. destruct rows as [|row rows]; cbn in Hstep.
      * simplify_eq. cbn. split_and!; try done. exists k, []. done.
      * apply Forall_cons in Hset as [Hrow Hset].
        pose proof (loop_body_settled env skip_existing c0 row (st s)
                      Hrow HSrc HDst) as (Ht & Hdet' & Hget' & Hjob).
        destruct (loop_body _ _ _ _ _) as [t st']. simplify_eq.
        cbn -[wrap64] in *. subst t.
        rewrite Hdet', Hget', Hjob, Hpend.
        destruct (row !! "path") as [p|] eqn:Hpath; cbn -[wrap64] in *.
        -- split_and!; try done. exists (S k), rows.
           rewrite HSch, HCo, HSk, !wrap64_add_l.
           split_and!; try done;
             first [unfold manifest_paths; lia | f_equal; lia].
        -- split_and!; try done. exists k, rows. done.
    + rewrite Hpend, (budget_gate_empty _ Hret) in Hstep. simplify_eq. cbn.
      split_and!; try done. exists k, []. done.
  - by rewrite Hpend in Hstep.
  - by rewrite Hdet in Hstep.
Qed.

Lemma settled_inv_exec env skip_existing c0 n script :
  ∀ s s', exec env skip_existing false script s = Some s' →
          settled_inv env skip_existing c0 n s →
          settled_inv env skip_existing c0 n s'.
Proof.
  induction script as [|ch script IH]; intros s s' H Hinv; cbn [exec] in H.
  - by simplify_eq.
  - destruct (sys_step _ _ _ ch s) as [s1|] eqn:Hs; [|done].
    eapply IH; [done|]. by eapply settled_inv_step.
Qed.

(** X16.  Cloning into a destination that is up to date fetches nothing.
    When updates are not forced and, for every row of the manifest, the
    local copy is there and either the job skips what exists or the
    fingerprints that the loop compares are equal, then in every run of a job
    that starts from [NewWOFClone] no unit of work is ever handed to the
    pool, no GET request is made and nothing is written; and when
    [CloneMetaFile] returns, it returns nil with [Scheduled], [Completed]
    and [Skipped] at the number of rows that have a path and [Success] and
    [Error] at zero. *)
Theorem up_to_date_destination_fetches_nothing
    env skip_existing source dest rows script s :
  Forall (settled env skip_existing (NewWOFClone source dest)) rows →
  exec env skip_existing false script
    (CloneMetaFile (fresh source dest) (Ok (Row <$> rows))) = Some s →
  pending s = [] ∧ finished s = [] ∧ detached (st s) = [] ∧
  get_requests (trace (st s)) = [] ∧
  ∀ r, pc s = Returned r →
       let c := job (st s) in
       let n := wrap64 (Z.of_nat (length (manifest_paths rows))) in
       r = None ∧ Scheduled c = n ∧ Completed c = n ∧ Skipped c = n ∧
       Success c = 0 ∧ Error c = 0.
Proof.
  intros Hset Hex.
  apply (settled_inv_exec _ _ (NewWOFClone source dest)
           (length (manifest_paths rows))) in Hex.
  - destruct Hex as (Hpend & Hfin & Hdet & Hget & _ & _ & _ & HS & HE
                     & k & rows' & _ & _ & Hk & HSch & HCo & HSk & Hpc).
    split_and!; try done. intros r Hr. rewrite Hr in Hpc.
    destruct Hpc as [-> ->]. cbn in Hk.
    assert (k = length (manifest_paths rows)) as <- by lia.
    cbv zeta. split_and!; done.
  - unfold settled_inv. cbn. split_and!; try done.
    exists 0%nat, rows. split_and!; done.
Qed.

Lemma up_to_date_destination_witness :
  pending ex_same_final = [] ∧ finished ex_same_final = [] ∧
  detached (st ex_same_final) = [] ∧
  get_requests (trace (st ex_same_final)) = [] ∧
  ∀ r, pc ex_same_final = Returned r →
       let c := job (st ex_same_final) in
       let n := wrap64 (Z.of_nat (length (manifest_paths [{[ "path" := "a" ]}]))) in
       r = None ∧ Scheduled c = n ∧ Completed c = n ∧ Skipped c = n ∧
       Success c = 0 ∧ Error c = 0.
Proof.
  apply (up_to_date_destination_fetches_nothing env_same false
           "http://src/" "dest" [{[ "path" := "a" ]}] [Coord; Coord; Coord]
           ex_same_final).
  - apply Forall_cons. split; [|apply Forall_nil_2].
    intros p Hp t. split; [reflexivity|]. right.
    exists "h", (ex_rsp "h"). vm_compute. repeat split; reflexivity.
  - vm_compute. reflexivity.
Defined.

(** ** [Fetch] and [HasChanged] *)

(** X17.  [Fetch] hands a response back only when its status is 200, and
    then it is the response of the transport, for a HEAD as for a GET
    request; its callers never look at the status again. *)
Theorem Fetch_hands_back_only_200 env method url s rsp :
  (Fetch env method url s).1 = Ok rsp →
  StatusCode rsp = 200 ∧ env_Do env (now s) method url = Ok rsp.
Proof.
  unfold_code. run_M.
  destruct (env_Do _ _ _ _) as [rsp'|e]; run_M; [|done].
  destruct (StatusCode rsp' =? 200) eqn:E; run_M; [|done].
  intros [= ->]. split; [by apply Z.eqb_eq|done].
Qed.

Lemma Fetch_hands_back_witness :
  StatusCode (ex_rsp "h") = 200 ∧
  env_Do env_same (now (fresh "http://src/" "dest")) "GET" "http://src/a"
  = Ok (ex_rsp "h").
Proof.
  apply (Fetch_hands_back_only_200 env_same "GET" "http://src/a"
           (fresh "http://src/" "dest") (ex_rsp "h")).
  reflexivity.
Defined.

(** X18.  When the local file cannot be hashed, [HasChanged] answers
    "changed" with the error of the hash and does not ask the remote: the
    hash is its only call to the outside. *)
Theorem HasChanged_unhashable_file_is_changed env local remote s e :
  env_HashFile env (now s) local = Fail e →
  HasChanged env local remote s
  = ((true, Some e),
     mkState (job s) (EvHashFile local (Fail e) :: trace s) (detached s)).
Proof.
  intros Hh. unfold HasChanged, utils_HashFile. run_M. by rewrite Hh.
Qed.

Lemma HasChanged_unhashable_witness :
  HasChanged env_disk_full "dest/a" "http://src/a" (fresh "http://src/" "dest")
  = ((true, Some "no such file"),
     mkState (NewWOFClone "http://src/" "dest")
       [EvHashFile "dest/a" (Fail "no such file")] []).
Proof.
  apply (HasChanged_unhashable_file_is_changed env_disk_full "dest/a"
           "http://src/a" (fresh "http://src/" "dest") "no such file").
  reflexivity.
Defined.

(** ** [CloneMetaFile] can always return *)

Lemma run_task_detached env t s :
  detached s `prefix_of` detached (run_task env t s).2.
Proof.
  destruct t as [p ec|p]; unfold run_task, initial_unit, retry_unit; run_M.
  - pose proof (ClonePath_effect env p ec s) as (_ & HC).
    destruct (ClonePath env p ec s) as [[e|] s1]; run_M;
      destruct HC as [(_ & _ & ->)|[(_ & _ & lc & ->)|(_ & _ & ->)]];
      done || by apply prefix_app_r.
  - pose proof (ClonePath_effect env p true s) as (_ & HC).
    destruct (ClonePath env p true s) as [[e|] s1]; run_M;
      destruct HC as [(_ & _ & ->)|[(_ & _ & lc & ->)|(_ & _ & ->)]];
      done || by apply prefix_app_r.
Qed.

Lemma can_return_step env skip_existing force_updates ch s s1 :
  no_write ch →
  sys_step env skip_existing force_updates ch s = Some s1 →
  detached (st s) `prefix_of` detached (st s1) →
  can_return env skip_existing force_updates s1 →
  can_return env skip_existing force_updates s.
Proof.
  intros Hch Hstep Hdet (script & s' & r & Hnw & Hex & Hpc & Hpre).
  exists (ch :: script), s', r. split_and!; [by constructor| |done|by etrans].
  cbn [exec]. by rewrite Hstep.
Qed.

(** The pool can run every unit in flight: a barrier is reached. *)
Lemma can_return_drain env skip_existing force_updates n :
  ∀ s, length (pending s) = n →
       (∀ s', pending s' = [] → pc s' = pc s → reader s' = reader s →
              can_return env skip_existing force_updates s') →
       can_return env skip_existing force_updates s.
Proof.
  induction n as [|n IH]; intros s Hlen Hk.
  - apply Hk; [by apply nil_length_inv|done..].
  - destruct (pending s) as [|t rest] eqn:Hpend; [done|].
    pose proof (run_task_detached env t (st s)) as Hdet.
    destruct (run_task env t (st s)) as [r st'] eqn:Hrun.
    eapply (can_return_step _ _ _ (Run 0));
      [done|cbn [sys_step]; rewrite Hpend; cbn; by rewrite Hrun|done|].
    apply IH; [cbn in *; lia|]. cbn. done.
Qed.

Lemma can_return_from_retry_wait env skip_existing force_updates s :
  pc s = RetryWait → can_return env skip_existing force_updates s.
Proof.
  intros Hpc. apply (can_return_drain _ _ _ (length (pending s))); [done|].
  intros s' Hpend Hpc' _.
  eapply (can_return_step _ _ _ Coord);
    [done|cbn; unfold coord_step; by rewrite Hpc', Hpc, Hpend|done|].
  eexists [], _, _. split_and!; [constructor|reflexivity|reflexivity|done].
Qed.

Lemma can_return_from_retries env skip_existing force_updates n :
  ∀ s, length (retries (job (st s))) = n → pc s = InRetries →
       can_return env skip_existing force_updates s.
Proof.
  induction n as [|n IH]; intros s Hlen Hpc.
  - eapply (can_return_step _ _ _ Coord);
      [done|cbn; unfold coord_step, retries_Length; by rewrite Hpc, Hlen|done|].
    by apply can_return_from_retry_wait.
  - destruct (retries (job (st s))) as [|p rest] eqn:Hret; [done|].
    eapply (can_return_step _ _ _ Coord);
      [done
      |cbn; unfold coord_step, retries_Length; rewrite Hpc, Hret;
       unfold retry_loop_body; run_M; rewrite Hret; run_M; done
      |done|].
    apply IH; [cbn in *; lia|done].
Qed.

Lemma can_return_from_initial_wait env skip_existing force_updates s :
  pc s = InitialWait → can_return env skip_existing force_updates s.
Proof.
  intros Hpc. apply (can_return_drain _ _ _ (length (pending s))); [done|].
  intros s' Hpend Hpc' _. rewrite Hpc in Hpc'.
  destruct (budget_gate (job (st s'))) as [|pct|pct] eqn:Hgate;
    (eapply (can_return_step _ _ _ Coord);
     [done|cbn; unfold coord_step; by rewrite Hpc', Hpend, Hgate|done|]).
  - eexists [], _, _. split_and!; [constructor|reflexivity|reflexivity|done].
  - eexists [], _, _. split_and!; [constructor|reflexivity|reflexivity|done].
  - by eapply can_return_from_retries.
Qed.

Lemma can_return_from_loop env skip_existing force_updates items :
  ∀ s, reader s = items → pc s = InLoop →
       can_return env skip_existing force_updates s.
Proof.
  induction items as [|[row|e] items IH]; intros s Hrd Hpc.
  - eapply (can_return_step _ _ _ Coord);
      [done|cbn; unfold coord_step; by rewrite Hpc, Hrd|done|].
    by apply can_return_from_initial_wait.
  - pose proof (loop_body_counts env skip_existing force_updates row (st s))
      as (Hdet & _).
    destruct (loop_body env skip_existing force_updates row (st s))
      as [t st'] eqn:Hbody.
    eapply (can_return_step _ _ _ Coord);
      [done|cbn; unfold coord_step; by rewrite Hpc, Hrd, Hbody
      |cbn in *; by rewrite Hdet|].
    by apply IH.
  - eapply (can_return_step _ _ _ Coord);
      [done|cbn; unfold coord_step; by rewrite Hpc, Hrd|done|].
    eexists [], _, _. split_and!; [constructor|reflexivity|reflexivity|done].
Qed.

(** X19.  [CloneMetaFile] can always return: from any state of a run, the
    pool and the coordinator alone, without any write being run, can take
    the job to its return.  Neither barrier waits for the writes that
    [Process] started, so those still in flight at that state are still in
    flight when [CloneMetaFile] returns. *)
Theorem CloneMetaFile_returns_without_waiting_for_writes
    env skip_existing force_updates s :
  ∃ script s' r,
    Forall no_write script ∧
    exec env skip_existing force_updates script s = Some s' ∧
    pc s' = Returned r ∧
    detached (st s) `prefix_of` detached (st s').
Proof.
  change (can_return env skip_existing force_updates s).
  destruct (pc s) as [| | | |r] eqn:Hpc.
  - by eapply can_return_from_loop.
  - by apply can_return_from_initial_wait.
  - by eapply can_return_from_retries.
  - by apply can_return_from_retry_wait.
  - exists [], s, r. split_and!; done.
Qed.

(** ** Every call to the outside is for an entry of the manifest *)

Lemma ClonePath_within env paths rel_path ensure_changes s :
  rel_path ∈ paths →
  let s' := (ClonePath env rel_path ensure_changes s).2 in
  (Forall (within env (Source (job s)) (Dest (job s)) paths) (trace s) →
   Forall (within env (Source (job s)) (Dest (job s)) paths) (trace s')) ∧
  (Forall (write_within env (Dest (job s)) paths) (detached s) →
   Forall (write_within env (Dest (job s)) paths) (detached s')).
Proof.
  intros Hp. cbv zeta. unfold_code. run_M.
  repeat (case_match; run_M; simplify_eq);
    (split; intros Hall; solve_within rel_path).
Qed.

Lemma run_task_within env paths t s :
  task_path t ∈ paths →
  let s' := (run_task env t s).2 in
  (Forall (within env (Source (job s)) (Dest (job s)) paths) (trace s) →
   Forall (within env (Source (job s)) (Dest (job s)) paths) (trace s')) ∧
  (Forall (write_within env (Dest (job s)) paths) (detached s) →
   Forall (write_within env (Dest (job s)) paths) (detached s')).
Proof.
  intros Hp. cbv zeta.
  destruct t as [p ec|p]; unfold run_task, initial_unit, retry_unit; run_M.
  - pose proof (ClonePath_within env paths p ec s Hp) as HC.
    destruct (ClonePath env p ec s) as [[e|] s1]; run_M; done.
  - pose proof (ClonePath_within env paths p true s Hp) as HC.
    destruct (ClonePath env p true s) as [[e|] s1]; run_M; done.
Qed.

Lemma loop_body_within env paths skip_existing force_updates row rel_path s :
  row !! "path" = Some rel_path → rel_path ∈ paths →
  let r := loop_body env skip_existing force_updates row s in
  (Forall (within env (Source (job s)) (Dest (job s)) paths) (trace s) →
   Forall (within env (Source (job s)) (Dest (job s)) paths) (trace r.2)) ∧
  match r.1 with Some t => task_path t = rel_path | None => True end.
Proof.
  intros Hpath Hp. cbv zeta. unfold loop_body. rewrite Hpath.
  unfold_code. run_M.
  repeat (case_match; run_M; simplify_eq);
    (split; [intros Hall; solve_within rel_path|done]).
Qed.

Lemma write_goroutine_within env source dest paths local contents s :
  (∃ rel_path, rel_path ∈ paths ∧ local = path_Join env dest rel_path) →
  Forall (within env source dest paths) (trace s) →
  Forall (within env source dest paths)
    (trace (write_goroutine env local contents s).2).
Proof.
  intros (p & Hp & ->) Hall. unfold_code. run_M.
  case_match; run_M; solve_within p.
Qed.

Lemma manifest_inv_step env skip_existing force_updates source dest paths ch s s' :
  sys_step env skip_existing force_updates ch s = Some s' →
  manifest_inv env source dest paths s → manifest_inv env source dest paths s'.
Proof.
  unfold manifest_inv.
  intros Hstep (HSrc & HDst & Hrd & Hpend & Hret & Hdet & Htr).
  subst source dest.
  destruct ch as [|i|i]; cbn [sys_step] in Hstep.
  - unfold coord_step in Hstep. destruct (pc s) eqn:Hpc.
    + destruct (reader s) as [|[row|e] rest] eqn:Hreader; simplify_eq.
      * done.
      * cbn in Hrd. destruct (row !! "path") as [p|] eqn:Hpath.
        -- apply Forall_cons in Hrd as [Hp Hrd].
           pose proof (loop_body_frame env skip_existing force_updates row (st s))
             as (Hr' & _ & _ & _ & HS' & HD').
           pose proof (loop_body_counts env skip_existing force_updates row (st s))
             as (Hdet' & _).
           pose proof (loop_body_within env paths skip_existing force_updates
                         row p (st s) Hpath Hp) as [Htr' Ht].
           destruct (loop_body _ _ _ _ _) as [t st']. simplify_eq. cbn in *.
           rewrite HS', HD'.
           split_and!; [done|done|done| |by rewrite Hr'|by rewrite Hdet'|auto].
           apply Forall_app. split; [done|].
           destruct t as [t|]; cbn; [|done].
           apply Forall_cons. split; [by rewrite Ht|done].
        -- unfold loop_body in Hstep. rewrite Hpath in Hstep. cbn in Hstep.
           simplify_eq. cbn. rewrite app_nil_r. done.
      * done.
    + destruct (pending s); [|done].
      destruct (budget_gate _); simplify_eq; done.
    + destruct (0 <? _).
      * unfold retry_loop_body in Hstep. run_M.
        destruct (retries (job (st s))) as [|p rest] eqn:Hr; run_M;
          simplify_eq; cbn; [split_and!; first [done | by rewrite Hr]|].
        apply Forall_cons in Hret as [Hp Hret].
        split_and!; try done.
        apply Forall_app. split; [done|]. by repeat constructor.
      * simplify_eq. done.
    + destruct (pending s); simplify_eq. done.
    + done.
  - destruct (pending s !! i) as [t|] eqn:Hi; [|done].
    assert (task_path t ∈ paths) as Ht
      by apply (Forall_lookup_1 _ _ _ _ Hpend Hi).
    pose proof (run_task_frame env t (st s)) as (Hr' & _ & _ & _ & HS' & HD').
    pose proof (run_task_within env paths t (st s) Ht) as [Htr' Hdet'].
    destruct (run_task _ _ _) as [r st']. simplify_eq. cbn in *.
    rewrite HS', HD'.
    split_and!; [done|done|done|by apply Forall_delete| |auto|auto].
    rewrite Hr'. destruct t as [p ec|p], r; try done. by apply Forall_cons.
  - destruct (detached (st s) !! i) as [[local contents]|] eqn:Hi; [|done].
    pose proof (write_goroutine_frame env local contents
      (mkState (job (st s)) (trace (st s)) (delete i (detached (st s)))))
      as (Hr' & _ & _ & _ & _ & HS' & HD').
    pose proof (write_goroutine_effect env local contents
      (mkState (job (st s)) (trace (st s)) (delete i (detached (st s)))))
      as (Hdet' & _).
    pose proof (write_goroutine_within env (Source (job (st s)))
      (Dest (job (st s))) paths local contents
      (mkState (job (st s)) (trace (st s)) (delete i (detached (st s)))))
      as Htr'.
    destruct (write_goroutine _ _ _ _) as [w st']. simplify_eq. cbn in *.
    rewrite HS', HD'.
    split_and!; [done|done|done|done|by rewrite Hr'
                |rewrite Hdet'; by apply Forall_delete|].
    apply Htr'; [|done].
    apply (Forall_lookup_1 _ _ _ _ Hdet Hi).
Qed.

Lemma manifest_inv_exec env skip_existing force_updates source dest paths script :
  ∀ s s', exec env skip_existing force_updates script s = Some s' →
          manifest_inv env source dest paths s →
          manifest_inv env source dest paths s'.
Proof.
  induction script as [|ch script IH]; intros s s' H Hinv; cbn [exec] in H.
  - by simplify_eq.
  - destruct (sys_step _ _ _ ch s) as [s1|] eqn:Hs; [|done].
    eapply IH; [done|]. by eapply manifest_inv_step.
Qed.

(** X20.  A job only touches what its manifest lists.  In every run of a
    job that starts from [NewWOFClone], every call to the outside is made for
    a path of the manifest: the requests are HEAD or GET requests for the
    source followed by that path; the files examined, hashed and written are
    the destination joined with that path, and the directories examined and
    created are the directories of those files.  The writes still in flight
    are writes of such files too. *)
Theorem every_call_is_for_an_entry_of_the_manifest
    env skip_existing force_updates source dest items script s :
  exec env skip_existing force_updates script
    (CloneMetaFile (fresh source dest) (Ok items)) = Some s →
  Forall (within env source dest (item_paths items)) (trace (st s)) ∧
  Forall (write_within env dest (item_paths items)) (detached (st s)).
Proof.
  intros Hex.
  apply (manifest_inv_exec _ _ _ source dest (item_paths items)) in Hex.
  - by destruct Hex as (_ & _ & _ & _ & _ & ? & ?).
  - unfold manifest_inv. cbn. split_and!; try done.
    by apply Forall_forall.
Qed.

Lemma every_call_witness :
  Forall (within env_flaky "http://src/" "dest" (item_paths (Row <$> ex_rows)))
    (trace (st ex_flaky_barrier)) ∧
  Forall (write_within env_flaky "dest" (item_paths (Row <$> ex_rows)))
    (detached (st ex_flaky_barrier)).
Proof.
  apply (every_call_is_for_an_entry_of_the_manifest env_flaky false false
           "http://src/" "dest" (Row <$> ex_rows) ex_initial_script
           ex_flaky_barrier).
  vm_compute. reflexivity.
Defined.
